(* ===== verification/_CoqProject ===== *)
-Q . S2P
Prelude.v
CStr.v
WaitStatus.v
Os.v
Stdio.v
Input.v
Strtok.v
Subst.v
Tokenizer.v
Launcher.v
Reaper.v
Shell.v
