(* ===== verification/Prelude.v ===== *)
(** * A verification development for smallsh ([src/driver.c])

    smallsh is a single C file, [src/driver.c], implementing a minimal
    interactive shell.  Its parts and how they interact:

    - [main] (lines 15-82) is the main loop: it clears the argument array and
      the two redirection buffers, calls [getInput], and dispatches on the
      first argument: a NULL or empty or [#]-comment first argument
      re-prompts, [exit], [status] and [cd] are built-ins, anything else goes
      to [execInput].  It owns the session state: the shell's pid, the raw
      wait status [exit_status] and (implicitly) the working directory.
    - [getInput] (lines 84-163) prints the prompt, reads one line with
      [fgets], strips the newline, tokenizes the line with [strtok] on
      single spaces, recognises [<], [>] and [&], copies other tokens with
      [strdup] and rewrites the first [$$] of each with the pid.
    - [execInput] (lines 165-235) forks; the child wires the redirections with
      [open]/[dup2] and calls [execvp]; the parent waits for the child
      (foreground) or polls it once with [WNOHANG] (background).

    ** Files, in dependency order (see [_CoqProject])

    - [Prelude] (this file): the notation scope [smallsh_scope] ([=s=] is
      [!strcmp]), the tactics [invc] and [case_streq], the hint database
      [smallsh], and the generic lemmas on strings, lists and options.
    - [CStr] (Module [CStr]): the C string primitives on heap bytes
      ([list ascii] ending in NUL): [strlen], [strdup], [strcat] (which writes
      past the end of its destination when the block is too small, so an
      overflow shows as a longer list), [cstr], [snprintf_d]; a heap [block]
      is its allocated size with its bytes, and [overflows] tests a write
      past the allocation.
    - [WaitStatus]: the glibc layout of wait statuses and the macros
      [WIFEXITED], [WEXITSTATUS], [WTERMSIG] on [Z] with [Z.land]/[Z.shiftr];
      [status_msg] is the report of [status] (lines 50-57, also 225-230).
    - [Os]: the operating system as the program sees it: the file system
      (a [gmap] of files and a [gset] of directories), descriptor tables
      ([gmap Z ofile]), [open] (lowest free descriptor), [dup2], [chdir];
      the class [Env] holds what the shell cannot predict ([HOME], [execvp]
      lookup, what a program does, [fork] failure, whether a background
      child has ended at the poll, the address of [exit_status]), with the
      law that a program leaves a valid wait status; [env_demo] is a
      concrete instance for the witnesses.  Failing calls return their
      [errno], and [perror] builds the diagnostic from it ([strerror]).
    - [Stdio]: the calls on the streams as events [ev] ([printf],
      [fflush(stdout)], a write to standard error, [fgets], [fork]); the
      buffer of standard output with glibc's three buffering modes
      ([io_step], [io_run]) and the terminal as the interleaving of the two
      streams; the discipline [ordered] (nothing reaches standard error,
      [fgets] or [fork] while bytes are pending) and [prompted] (every
      [fgets] right after the prompt and its [fflush]).
    - [Input]: [fgets] with the 2048-byte buffer and the newline loop
      (lines 89-99).
    - [Strtok]: [strtok(_, " ")] as a function of its saved position, and the
      reference [split_spaces].
    - [Subst]: the [$$] loop of lines 142-152 byte by byte on the [strdup]
      block, and the reference [first_subst]; [subst_block] is the block
      [data[i]] points to after the loop.
    - [Tokenizer]: [getInput] (lines 84-163) as a fuelled loop [tok_loop]
      over the [strtok] state with the body [tok_body]; its result is a
      command record [cmd] (the [data] array as a [gmap nat string], the two
      file names, the background flag, the blocks [strdup] allocated, in
      order: [store_arg] is [data[i] = strdup(token)]), the lines printed and the input
      left, or a crash ([strcpy] from NULL), or end of input.  [argv] is the
      vector [execvp] reads, up to the first NULL.  [parse_tokens] is the
      reference loop over the list of words.
    - [Launcher]: the child side of [execInput] (lines 178-217): the two
      redirections and [execvp], ending in [ChildExit code msgs fs] or
      [ChildExec argv fds fs].
    - [Reaper]: the session record of [main] (with what was written on
      standard output and on standard error, and the heap of blocks
      allocated so far, which only grows: the code has no [free]; and the
      log of its calls on the streams) and the parent side of
      [execInput] (lines 165-176, 218-235): [fork], blocking [waitpid], the
      single [WNOHANG] poll and its report.
    - [Shell]: [main]: [dispatch] on the first argument, [main_step] for one
      iteration of the loop, [run] for [fuel] iterations; the abstract step
      relation [step] (with the choices of the environment left free) and
      the invariant [shell_inv]; the [fflush] calls of [main] and the calls
      [getInput] makes on the streams ([getInput_io]) go to the log.

    ** What the theorems show

    - Type: every command [getInput] returns keeps its arguments, C strings,
      in the first 512 slots of the 2048-slot array, with space-free file
      names ([Tokenizer.getInput_wf]).
    - Equivalences: [getInput] equals its reference over the word list
      ([Tokenizer.getInput_ref_eq]); the byte loop of [$$] computes
      [first_subst] ([Subst.expand_first_subst]).
    - Refinement: every iteration of [main] is a step of [step] in every
      environment ([Shell.main_step_refines]).
    - Invariant of [main] ([Shell.run_inv]), proved by induction on the
      steps of [step]: whatever the environment, [exit_status] is a valid
      wait status, unreaped children are distinct earlier pids, and the pid
      never changes.  [main] ends with a code only by [return 0] after
      [exit] or [exit(1)] after a failed [fork] ([Shell.run_exit_codes]).
    - Bounds: the 512-argument cap ([Tokenizer.getInput_cap]); a line
      longer than the buffer is read as two ([Tokenizer.getInput_long_line]).
    - Heap ownership: the non-NULL slots of [data] point, one each and in
      order, to the blocks [getInput] allocated, each the copy of a word
      ([Tokenizer.getInput_heap]); the [strcat] of the [$$] loop writes past
      its block exactly when [|t| < k + |pid|] ([Subst.subst_heap_overflow]);
      no block is ever freed: along a script the heap is the blocks of
      every line read, in order ([Shell.run_heap_leak]).
    - Output: every log of [main] follows the discipline of [Stdio], and
      by the simulation [Stdio.io_sim], in every buffering mode the prompt
      is on the screen and nothing is pending whenever the shell blocks in
      [fgets] ([Shell.run_prompt_visible]), and nothing is pending at every
      [fork] and write to standard error ([Shell.run_fork_flushed]).
    - Functional behaviour of each built-in, of the tokenizer on [&], [<]
      and [>], and of the child and parent sides of [execInput], errors
      included: [open] fails as the kernel's path resolution does
      ([Launcher.child_output_created], [Launcher.child_exit_codes]).
    - The defects the model exposes: input redirection lands on descriptor 1
      ([Launcher.child_stdin_untouched]); arguments after a special token are
      lost ([Tokenizer.getInput_argv_special]); only the first [$$] is
      replaced and the rest of the token is dropped
      ([Subst.expand_drops_suffix]); the [strcat] overflows its block
      ([Subst.subst_heap_overflow]); every [strdup] copy leaks
      ([Shell.run_heap_leak]); a final [>] crashes the shell
      ([Tokenizer.getInput_dangling_out]); the background report prints 0 and decodes an
      address ([Reaper.execInput_background_running]); [cd] followed by a
      special token goes home ([Shell.main_step_cd_special]).

    ** Fuel and bounds

    [tok_loop] gets [|line| + 1]: each iteration consumes a word of the
    remaining line, which has at most [|line|] words ([tok_loop_parse]).
    [subst_loop] gets [|t| + |pid| + 1]: the loop walks the token and then
    the appended digits ([subst_loop_spec]).  [argv] reads at most
    [INPUTSIZE] slots, the size of [input] in [main].  [run] is given any
    fuel: its theorems hold for every number of iterations.

    ** Not modelled

    End of input: [fgets] returns NULL and the code goes on with the bytes
    its buffer held before (it never tests the result); the model stops
    there, in the outcome [Undefined], and no theorem is about what follows.
    The kernel itself: scheduling of background children, signals, what a
    program does after [execvp] (a parameter of [Env], including what it
    writes, and how the writes of a background child interleave with the
    shell's); the [fflush] of lines 103 and 151, which come after a flush
    with nothing printed since, and the standard output of the child
    process itself (line 214); the addresses of heap blocks and what [malloc] does when
    memory runs out (the heap is the list of blocks, and [strdup] never
    fails); the overflow of the
    512-byte [input_file]/[output_file] arrays by [strcpy] (the model keeps
    the file names as strings of any length). *)

From Stdlib Require Export ZArith Lia Ascii.
From stdpp Require Export base list gmap strings options.

Declare Scope smallsh_scope.
Delimit Scope smallsh_scope with sh.
Open Scope smallsh_scope.

(** ** Characters the program tests for *)

Definition NUL : ascii := "000"%char.
Definition NL : ascii := "010"%char.
Definition SPACE : ascii := " "%char.
Definition DOLLAR : ascii := "$"%char.

(** [s1 =s= s2] is the test [!strcmp(s1, s2)]. *)
Notation "s1 =s= s2" := (String.eqb s1 s2) (at level 70, no associativity) : smallsh_scope.

(** ** Tactics *)

Create HintDb smallsh discriminated.
Create Rewrite HintDb smallsh.

Ltac invc H := inversion H; subst; clear H.

(** Case analysis on every string comparison of the goal. *)
Ltac case_streq :=
  repeat match goal with
  | |- context [String.eqb ?a ?b] => destruct (String.eqb_spec a b); subst
  | H : context [String.eqb ?a ?b] |- _ => destruct (String.eqb_spec a b); subst
  end.

(** ** Generic lemmas on strings *)

(** stdpp makes [String.append] [simpl never]; these are its two equations. *)
Lemma string_app_nil_l (s : string) : ("" +:+ s)%string = s.
Proof. reflexivity. Qed.

Lemma string_app_cons (c : ascii) (s t : string) :
  (String c s +:+ t)%string = String c (s +:+ t).
Proof. reflexivity. Qed.

#[export] Hint Rewrite string_app_nil_l string_app_cons : smallsh.

Lemma string_app_nil_r (s : string) : (s +:+ "")%string = s.
Proof. induction s as [|c s IH]; autorewrite with smallsh; congruence. Qed.

Lemma string_app_assoc (s1 s2 s3 : string) :
  (s1 +:+ (s2 +:+ s3))%string = ((s1 +:+ s2) +:+ s3)%string.
Proof. induction s1 as [|c s IH]; autorewrite with smallsh; congruence. Qed.

Lemma string_length_app (s1 s2 : string) :
  String.length (s1 +:+ s2) = String.length s1 + String.length s2.
Proof. induction s1 as [|c s IH]; autorewrite with smallsh; simpl; congruence. Qed.

Lemma length_list_ascii (s : string) :
  length (String.list_ascii_of_string s) = String.length s.
Proof. induction s as [|c s IH]; simpl; congruence. Qed.

#[export] Hint Rewrite length_list_ascii : smallsh.

Lemma list_ascii_app (s t : string) :
  String.list_ascii_of_string (s +:+ t) =
  String.list_ascii_of_string s ++ String.list_ascii_of_string t.
Proof. induction s as [|c s IH]; autorewrite with smallsh; simpl; congruence. Qed.

#[export] Hint Rewrite list_ascii_app : smallsh.

Lemma streq_refl (s : string) : (s =s= s) = true.
Proof. apply String.eqb_refl. Qed.

Lemma streq_ne (s t : string) : s ≠ t -> (s =s= t) = false.
Proof. apply String.eqb_neq. Qed.

#[export] Hint Rewrite string_app_nil_r string_length_app streq_refl : smallsh.
#[export] Hint Resolve streq_ne : smallsh.

Lemma lookup_app_r_length {A} (l : list A) (x : A) :
  (l ++ [x]) !! length l = Some x.
Proof. rewrite lookup_app_r; [|lia]. by rewrite Nat.sub_diag. Qed.

Lemma app_snoc_cons {A} (pre l : list A) (c : A) :
  pre ++ c :: l = (pre ++ [c]) ++ l.
Proof. by rewrite <- app_assoc. Qed.

Lemma length_snoc {A} (l : list A) (c : A) : length (l ++ [c]) = S (length l).
Proof. rewrite length_app; simpl; lia. Qed.

Lemma not_elem_of_snoc {A} (x y : A) (l : list A) : x ∉ l -> y ≠ x -> x ∉ l ++ [y].
Proof. set_solver. Qed.

(** The non-NULL slots [0..n-1] of an array, as [omap] over [seq]. *)
Lemma omap_seq_S {A} (f : nat -> option A) (n : nat) :
  omap f (seq 0 (S n)) = omap f (seq 0 n) ++ option_list (f n).
Proof. rewrite seq_S, omap_app. simpl. by destruct (f n). Qed.

Lemma omap_seq_ext {A} (f g : nat -> option A) (n : nat) :
  (forall k, k < n -> f k = g k) -> omap f (seq 0 n) = omap g (seq 0 n).
Proof.
  induction n as [|n IH]; intros Hfg; [done|]. rewrite !omap_seq_S, Hfg by lia.
  f_equal. apply IH. intros k Hk. apply Hfg. lia.
Qed.

Lemma omap_seq_none {A} (f : nat -> option A) (i n : nat) :
  (forall k, i <= k -> f k = None) -> omap f (seq i n) = [].
Proof.
  revert i; induction n as [|n IH]; intros i Hf; [done|]. simpl.
  rewrite Hf by lia. apply IH. intros k Hk. apply Hf. lia.
Qed.

(** Only the slots below [i] can be non-NULL: the rest of the array adds
    nothing. *)
Lemma omap_seq_below {A} (f : nat -> option A) (i n : nat) :
  i <= n -> (forall k, i <= k -> f k = None) -> omap f (seq 0 n) = omap f (seq 0 i).
Proof.
  intros Hin Hf. replace n with (i + (n - i)) by lia.
  rewrite seq_app, omap_app, (omap_seq_none f (0 + i)) by (intros k Hk; apply Hf; lia).
  apply app_nil_r.
Qed.

Lemma DOLLAR_not_NUL : DOLLAR ≠ NUL.
Proof. unfold DOLLAR, NUL. discriminate. Qed.

Lemma SPACE_not_NUL : SPACE ≠ NUL.
Proof. unfold SPACE, NUL. discriminate. Qed.

#[export] Hint Rewrite @lookup_app_r_length @length_snoc : smallsh.
#[export] Hint Resolve DOLLAR_not_NUL SPACE_not_NUL : smallsh.
