(* ===== verification/CStr.v ===== *)
(** * C strings as heap bytes

    The C library functions [src/driver.c] calls on strings, on the bytes a
    [char *] points to: a [list ascii] holding the characters and their NUL
    terminator.  [strlen], [strcat] and [strdup] are the library's; a write
    past the end of the list extends it, so that a heap overflow is visible
    as a buffer longer than its allocation; [block] pairs the bytes with
    the size that was allocated.  [snprintf_d] is the
    [snprintf(buffer, sizeof(buffer), "%d", pid)] of line 148. *)

From S2P Require Import Prelude.
From Stdlib Require DecimalString.

Module CStr.

(** The bytes of a heap block. *)
Abbreviation buffer := (list ascii).

(** Length of the C string at the start of [b]: the index of its first NUL. *)
Fixpoint strlen (b : buffer) : nat :=
  match b with
  | [] => 0
  | c :: b' => if Ascii.eqb c NUL then 0 else S (strlen b')
  end.

(** The C string a buffer holds: its bytes up to the first NUL. *)
Definition cstr (b : buffer) : string :=
  String.string_of_list_ascii (take (strlen b) b).

(** [strdup(s)]: a fresh block of [strlen s + 1] bytes. *)
Definition strdup (s : string) : buffer :=
  String.list_ascii_of_string s ++ [NUL].

(** [strcat(dst, src)]: the bytes of [src] and a NUL are written from the
    position of the first NUL of [dst] on, overwriting what is there and
    extending the block when they run past its end. *)
Definition strcat (dst : buffer) (src : string) : buffer :=
  let n := strlen dst in
  take n dst ++ String.list_ascii_of_string src ++ [NUL]
    ++ drop (n + String.length src + 1) dst.

(** [snprintf(buffer, 512, "%d", z)]: the decimal form of [z], a minus sign
    first when it is negative; an [int] has at most 11 characters, far below
    the 512 of the buffer, so no truncation happens. *)
Definition snprintf_d (z : Z) : string :=
  DecimalString.NilEmpty.string_of_int (Z.to_int z).

(** A block [malloc] (through [strdup]) handed out: the size it
    allocated and the bytes written from its start, which run past the size
    when the program writes out of bounds. *)
Record block := mkBlock {
  b_size : nat;
  b_bytes : buffer
}.

(** The block of [strdup(s)], before anything writes to it. *)
Definition strdup_block (s : string) : block :=
  mkBlock (length (strdup s)) (strdup s).

(** Some byte was written past the allocation. *)
Definition overflows (b : block) : bool := b_size b <? length (b_bytes b).

(** A C string has no NUL byte before its terminator. *)
Definition nul_free (s : string) : Prop := NUL ∉ String.list_ascii_of_string s.

#[export] Instance nul_free_dec s : Decision (nul_free s).
Proof. unfold nul_free. apply _. Defined.

(** The bytes [snprintf_d] writes are digits or a minus sign. *)
Definition plain_char (c : ascii) : bool :=
  negb (Ascii.eqb c NUL || Ascii.eqb c DOLLAR || Ascii.eqb c SPACE).

(** ** Lemmas *)

Lemma strlen_app_nul (l : list ascii) (rest : buffer) :
  NUL ∉ l -> strlen (l ++ NUL :: rest) = length l.
Proof.
  induction l as [|c l IH]; intros Hn; simpl; [done|].
  destruct (Ascii.eqb_spec c NUL); [subst; exfalso; apply Hn; left|].
  rewrite IH; [done|]. intros Hin; apply Hn; by right.
Qed.

Lemma cstr_app_nul (l : list ascii) (rest : buffer) :
  NUL ∉ l -> cstr (l ++ NUL :: rest) = String.string_of_list_ascii l.
Proof.
  intros Hn. unfold cstr. rewrite strlen_app_nul by done.
  by rewrite take_app_length.
Qed.

(** The C string of any buffer has no NUL: it stops at the first one. *)
Lemma cstr_nul_free (b : buffer) : nul_free (cstr b).
Proof.
  unfold nul_free, cstr. rewrite String.list_ascii_of_string_of_list_ascii.
  induction b as [|c b IH]; [set_solver|]. cbn [strlen].
  destruct (Ascii.eqb_spec c NUL) as [Hc|Hc]; cbn [take]; [set_solver|].
  intros Hin. apply elem_of_cons in Hin as [Hin|Hin]; [by apply Hc|by apply IH].
Qed.

Lemma cstr_strdup (s : string) : nul_free s -> cstr (strdup s) = s.
Proof.
  intros Hn. unfold strdup. rewrite cstr_app_nul by done.
  apply String.string_of_list_ascii_of_string.
Qed.

Lemma nul_free_cons (c : ascii) (s : string) :
  nul_free (String c s) <-> c ≠ NUL /\ nul_free s.
Proof. unfold nul_free; simpl. rewrite elem_of_cons. naive_solver. Qed.

Lemma nul_free_app (s t : string) :
  nul_free (s +:+ t) <-> nul_free s /\ nul_free t.
Proof.
  unfold nul_free. rewrite list_ascii_app, elem_of_app.
  naive_solver.
Qed.

Lemma plain_char_spec (c : ascii) :
  plain_char c = true -> c ≠ NUL /\ c ≠ DOLLAR /\ c ≠ SPACE.
Proof.
  unfold plain_char.
  destruct (Ascii.eqb_spec c NUL), (Ascii.eqb_spec c DOLLAR), (Ascii.eqb_spec c SPACE);
    naive_solver.
Qed.

Lemma snprintf_d_plain (z : Z) :
  forallb plain_char (String.list_ascii_of_string (snprintf_d z)) = true.
Proof.
  assert (Hu : forall d, forallb plain_char
    (String.list_ascii_of_string (DecimalString.NilEmpty.string_of_uint d)) = true)
    by (induction d; simpl; auto).
  unfold snprintf_d.
  match goal with |- context [DecimalString.NilEmpty.string_of_int ?i] => destruct i end;
    simpl; [done|by rewrite Hu].
Qed.

Lemma snprintf_d_chars (z : Z) (c : ascii) :
  c ∈ String.list_ascii_of_string (snprintf_d z) -> c ≠ NUL /\ c ≠ DOLLAR /\ c ≠ SPACE.
Proof.
  intros Hc. apply plain_char_spec.
  pose proof (snprintf_d_plain z) as H. rewrite forallb_forall in H.
  apply H. by apply list_elem_of_In.
Qed.

Lemma snprintf_d_nul_free (z : Z) : nul_free (snprintf_d z).
Proof. intros Hc. by apply snprintf_d_chars in Hc as [? _]. Qed.

Lemma snprintf_d_no_dollar (z : Z) : DOLLAR ∉ String.list_ascii_of_string (snprintf_d z).
Proof. intros Hc. by apply snprintf_d_chars in Hc as [_ [? _]]. Qed.

End CStr.
