(* ===== verification/WaitStatus.v ===== *)
(** * Wait statuses and the two status reports

    [exit_status] in [main] is the raw [int] that [waitpid] stores.  Its
    layout is glibc's ([bits/waitstatus.h]): the terminating signal in bits
    0-6 (0 for a normal exit), the core-dump flag in bit 7, the exit code
    in bits 8-15.  [WIFEXITED], [WEXITSTATUS] and [WTERMSIG] are the macros
    [src/driver.c] uses (lines 51-56 and 225-230); [exited] and [signaled]
    build the status of a child that called [exit(n)] or was killed.
    [status_msg] is the report of the [status] built-in, whose two
    [printf]s are the same as those of the background branch of
    [execInput]; the latter applies the macros to the pointer [exit_status]
    rather than to the status it points to, so it decodes the low bits of
    an address. *)

From S2P Require Import Prelude CStr.

Module WaitStatus.
Import CStr.
Local Open Scope Z_scope.

Definition WTERMSIG (s : Z) : Z := Z.land s 127.
Definition WIFEXITED (s : Z) : bool := WTERMSIG s =? 0.
Definition WEXITSTATUS (s : Z) : Z := Z.shiftr (Z.land s 65280) 8.

(** [__W_EXITCODE(ret, sig)]. *)
Definition W_EXITCODE (ret sig : Z) : Z := Z.lor (Z.shiftl ret 8) sig.

(** The status of a child that called [exit(n)]: the kernel keeps [n & 0xff]. *)
Definition exited (n : Z) : Z := W_EXITCODE (Z.land n 255) 0.

(** The status of a child killed by signal [sig] (1 to 126), with or
    without a core dump. *)
Definition signaled (sig : Z) (core : bool) : Z := Z.lor sig (if core then 128 else 0).

(** A status [waitpid] can store without [WUNTRACED]: an exit or a death by
    signal. *)
Definition valid_status (s : Z) : Prop :=
  (exists n, s = exited n) \/ (exists sig core, 1 <= sig <= 126 /\ s = signaled sig core).

(** [if (WIFEXITED(s)) printf("Exited with signal: %d\n", WEXITSTATUS(s));
      else printf("Terminated with signal: %d\n", WTERMSIG(s));] *)
Definition status_msg (s : Z) : string :=
  if WIFEXITED s
  then "Exited with signal: " +:+ snprintf_d (WEXITSTATUS s) +:+ String NL ""
  else "Terminated with signal: " +:+ snprintf_d (WTERMSIG s) +:+ String NL "".

(** ** The macros as arithmetic *)

Lemma WTERMSIG_mod (s : Z) : WTERMSIG s = s mod 128.
Proof. unfold WTERMSIG. change 127 with (Z.ones 7). by rewrite Z.land_ones by lia. Qed.

Lemma WEXITSTATUS_div (s : Z) : WEXITSTATUS s = (s / 256) mod 256.
Proof.
  unfold WEXITSTATUS. apply Z.bits_inj'. intros i Hi.
  change 65280 with (Z.shiftl (Z.ones 8) 8).
  change 256 with (2 ^ 8) at 1. rewrite <- Z.shiftr_div_pow2 by lia.
  change 256 with (2 ^ 8). rewrite Z.testbit_mod_pow2 by lia.
  rewrite Z.shiftr_spec, Z.land_spec, Z.shiftl_spec, Z.shiftr_spec by lia.
  replace (i + 8 - 8) with i by lia.
  rewrite Z.testbit_ones by lia.
  destruct (Z.ltb_spec i 8), (Z.leb_spec 0 i); simpl; try lia;
    rewrite ?andb_true_r, ?andb_false_r; done.
Qed.

Lemma exited_mul (n : Z) : exited n = (n mod 256) * 256.
Proof.
  unfold exited, W_EXITCODE. rewrite Z.lor_0_r, Z.shiftl_mul_pow2 by lia.
  change 255 with (Z.ones 8). by rewrite Z.land_ones by lia.
Qed.

Lemma lor_128 (sig : Z) : 0 <= sig < 128 -> Z.lor sig 128 = sig + 128.
Proof.
  intros Hs.
  assert (Hl : Z.land sig 128 = 0).
  { apply Z.bits_inj'; intros i Hi. rewrite Z.land_spec, Z.bits_0.
    change 128 with (2 ^ 7). rewrite Z.pow2_bits_eqb by lia.
    destruct (Z.eqb_spec 7 i) as [<-|]; [|by rewrite andb_false_r].
    rewrite <- (Z.mod_small sig (2 ^ 7)) by lia. by rewrite Z.mod_pow2_bits_high by lia. }
  pose proof (Z.add_lor_land sig 128). lia.
Qed.

Lemma signaled_add (sig : Z) (core : bool) :
  0 <= sig < 128 -> signaled sig core = sig + (if core then 128 else 0).
Proof.
  intros Hs. unfold signaled. destruct core; [by apply lor_128|by rewrite Z.lor_0_r, Z.add_0_r].
Qed.

Lemma exited_decode (n : Z) :
  WIFEXITED (exited n) = true /\ WEXITSTATUS (exited n) = n mod 256.
Proof.
  unfold WIFEXITED. rewrite WTERMSIG_mod, WEXITSTATUS_div, exited_mul. split.
  - replace (n mod 256 * 256) with (n mod 256 * 2 * 128) by ring. by rewrite Z_mod_mult.
  - by rewrite Z.div_mul, Z.mod_mod by lia.
Qed.

Lemma signaled_decode (sig : Z) (core : bool) :
  1 <= sig <= 126 -> WIFEXITED (signaled sig core) = false /\ WTERMSIG (signaled sig core) = sig.
Proof.
  intros Hs. unfold WIFEXITED. rewrite WTERMSIG_mod, signaled_add by lia.
  assert (E : (sig + (if core then 128 else 0)) mod 128 = sig).
  { destruct core; [|rewrite Z.add_0_r];
      [rewrite Z.add_mod, Z_mod_same_full, Z.add_0_r, !Z.mod_mod|]; rewrite ?Z.mod_small; lia. }
  rewrite E. split; [apply Z.eqb_neq; lia|done].
Qed.

(** C13: The report of the [status] built-in: after [exit(n)]
    it reads ["Exited with signal: "] and [n mod 256], after a death by
    signal [sig] ["Terminated with signal: "] and [sig]; in particular before
    any command (status 0) it is ["Exited with signal: 0"], where the spec
    promises ["exited with code N"] and ["terminated by signal N"]. *)
Theorem status_msg_cases (n sig : Z) (core : bool) :
  1 <= sig <= 126 ->
  status_msg (exited n) =
    ("Exited with signal: " +:+ snprintf_d (n mod 256) +:+ String NL "")%string /\
  status_msg (signaled sig core) =
    ("Terminated with signal: " +:+ snprintf_d sig +:+ String NL "")%string /\
  status_msg 0 = ("Exited with signal: 0" +:+ String NL "")%string.
Proof.
  intros Hs. destruct (exited_decode n) as [He1 He2], (signaled_decode sig core Hs) as [Hs1 Hs2].
  unfold status_msg. rewrite He1, He2, Hs1, Hs2. done.
Qed.

Lemma status_msg_cases_witness :
  (1 <= 9 <= 126) /\
  status_msg (exited 1) = ("Exited with signal: " +:+ snprintf_d (1 mod 256) +:+ String NL "")%string /\
  status_msg (signaled 9 false) = ("Terminated with signal: " +:+ snprintf_d 9 +:+ String NL "")%string /\
  status_msg 0 = ("Exited with signal: 0" +:+ String NL "")%string.
Proof. split; [lia|]. apply (status_msg_cases 1 9 false). lia. Defined.

End WaitStatus.
