(* ===== verification/Os.v ===== *)
(** * What the program sees of the operating system

    The system calls [src/driver.c] makes, as functions on an explicit
    state: the file system ([fsys]: the regular files with their contents
    and the set of directories, as stdpp maps and sets of absolute paths),
    the descriptor table of a process ([fdtable]: a [gmap] from descriptor
    to the open file), [open] with the two flag sets the program uses (it
    returns the lowest free descriptor), [dup2] and [chdir].  A failing
    [open] or [dup2] returns the [errno] it sets, and [perror] is the
    diagnostic built from it.  Paths are resolved against the working
    directory by concatenation, without normalising [.] and [..]; [open]
    walks the directories on the way ([ancestors]) and fails with [ENOENT]
    at a missing one and with [ENOTDIR] at a regular file ([path_error]).
    File permissions are not modelled.

    The rest of the environment is the class [Env]: the value of [HOME],
    whether [execvp] finds a program, what a program does once [execvp] has
    replaced the child's image (its effect on the files and the raw status
    [waitpid] reports, which the law [env_run_valid] says is a normal exit
    or a death by signal), whether [fork] fails and with which [errno],
    whether a background child has terminated when the shell polls it, and
    the address of [exit_status] (see [Reaper]).  The shell's theorems are
    proved for every instance; [Os.env_demo] is one concrete instance for
    the witnesses. *)

From S2P Require Import Prelude CStr WaitStatus.

Module Os.
Import WaitStatus.

Record fsys := mkFs {
  fs_files : gmap string string;
  fs_dirs : gset string
}.

(** A relative path is taken from the working directory. *)
Definition resolve (cwd p : string) : string :=
  match p with
  | String c _ => if Ascii.eqb c "/"%char then p else (cwd +:+ "/" +:+ p)%string
  | EmptyString => (cwd +:+ "/")%string
  end.

(** The error numbers the calls of the program can set, with glibc's
    [strerror] texts. *)
Inductive errno := ENOENT | ENOTDIR | EISDIR | EBADF | EAGAIN | ENOMEM.

#[export] Instance errno_eq_dec : EqDecision errno.
Proof. solve_decision. Defined.

Definition strerror (e : errno) : string :=
  match e with
  | ENOENT => "No such file or directory"
  | ENOTDIR => "Not a directory"
  | EISDIR => "Is a directory"
  | EBADF => "Bad file descriptor"
  | EAGAIN => "Resource temporarily unavailable"
  | ENOMEM => "Cannot allocate memory"
  end.

(** [perror(s)] writes [s], [": "], the text of [errno] and a newline to
    standard error. *)
Definition perror (s : string) (e : errno) : string :=
  (s +:+ ": " +:+ strerror e +:+ String NL "")%string.

(** An open file description: the terminal, or a file opened read-only or
    write-only in append mode. *)
Inductive ofile := Tty | RdFile (path : string) | AppFile (path : string).

#[export] Instance ofile_eq_dec : EqDecision ofile.
Proof. solve_decision. Defined.

Abbreviation fdtable := (gmap Z ofile).

(** The three standard descriptors the shell's children inherit. *)
Definition fds0 : fdtable := {[0%Z := Tty; 1%Z := Tty; 2%Z := Tty]}.

(** The lowest descriptor not in use: [open] returns it. *)
Fixpoint lowest_free_go (n : nat) (k : Z) (t : fdtable) : Z :=
  match n with
  | 0 => k
  | S n' => match t !! k with None => k | Some _ => lowest_free_go n' (k + 1)%Z t end
  end.

Definition lowest_free (t : fdtable) : Z := lowest_free_go (S (size t)) 0%Z t.

(** The directories an absolute path goes through, from the root down:
    ["/a/b/c"] goes through ["/a"] and ["/a/b"]. *)
Fixpoint ancestors_go (acc s : string) : list string :=
  match s with
  | EmptyString => []
  | String c s' =>
      if Ascii.eqb c "/"%char
      then (if acc =s= "" then [] else [acc]) ++ ancestors_go (acc +:+ "/") s'
      else ancestors_go (acc +:+ String c "") s'
  end.

Definition ancestors (q : string) : list string := ancestors_go "" q.

(** Path resolution: the first directory on the way that is missing gives
    [ENOENT], a regular file in its place [ENOTDIR]. *)
Fixpoint walk (fs : fsys) (l : list string) : option errno :=
  match l with
  | [] => None
  | a :: l' =>
      if decide (a ∈ fs_dirs fs) then walk fs l'
      else if decide (a ∈ dom (fs_files fs)) then Some ENOTDIR else Some ENOENT
  end.

Definition path_error (fs : fsys) (q : string) : option errno := walk fs (ancestors q).

(** [open(p, O_RDONLY)]: an existing file or directory opens; otherwise
    the path does not resolve ([ENOENT] or [ENOTDIR] on the way) or
    nothing is at its end ([ENOENT]).  On a file system whose entries lie in
    existing directories this is the kernel's order of checks. *)
Definition open_rdonly (fs : fsys) (cwd : string) (t : fdtable) (p : string)
    : (Z * fdtable) + errno :=
  let q := resolve cwd p in
  if decide (q ∈ dom (fs_files fs) \/ q ∈ fs_dirs fs)
  then let fd := lowest_free t in inl (fd, <[fd := RdFile q]> t)
  else inr (default ENOENT (path_error fs q)).

(** [open(p, O_WRONLY | O_CREAT | O_APPEND, 0666)]: fails with [EISDIR] on
    a directory, opens an existing file, and otherwise creates an empty
    file when the path resolves, or fails as path resolution does. *)
Definition open_append (fs : fsys) (cwd : string) (t : fdtable) (p : string)
    : (Z * fdtable * fsys) + errno :=
  let q := resolve cwd p in
  if decide (q ∈ fs_dirs fs) then inr EISDIR
  else
    match fs_files fs !! q, path_error fs q with
    | Some _, _ => let fd := lowest_free t in inl (fd, <[fd := AppFile q]> t, fs)
    | None, Some e => inr e
    | None, None =>
        let fd := lowest_free t in
        inl (fd, <[fd := AppFile q]> t, mkFs (<[q := ""%string]> (fs_files fs)) (fs_dirs fs))
    end.

(** [dup2(old, new)]: fails with [EBADF] when [old] is not open. *)
Definition dup2 (t : fdtable) (old new : Z) : fdtable + errno :=
  match t !! old with
  | None => inr EBADF
  | Some o => inl (<[new := o]> t)
  end.

(** [chdir(p)]: the new working directory, or failure. *)
Definition chdir (fs : fsys) (cwd p : string) : option string :=
  let q := resolve cwd p in
  if decide (q ∈ fs_dirs fs) then Some q else None.

(** ** The environment *)

Class Env := {
  env_home : option string;
  env_found : string -> bool;
  env_run : list string -> fdtable -> fsys -> fsys * Z;
  env_run_valid : forall a t fs, valid_status (snd (env_run a t fs));
  env_fork_fails : Z -> bool;
  env_fork_errno : errno;
  env_bg_done : Z -> bool;
  env_status_addr : Z
}.

(** A concrete environment: [HOME] is [/home/u], the programs on the path
    are [ls], [cat], [sort], [sleep], [true], [false] and [kill9]; [false]
    exits with 1, [kill9] is killed by signal 9, the others exit with 0;
    [fork] never fails, no background child has finished when it is
    polled, and [exit_status] lives at [0x7ffc1234]. *)
Definition demo_run (a : list string) (t : fdtable) (fs : fsys) : fsys * Z :=
  match a with
  | p :: _ => if p =s= "false" then (fs, exited 1)
              else if p =s= "kill9" then (fs, signaled 9 false)
              else (fs, exited 0)
  | [] => (fs, exited 0)
  end.

Definition demo_found (p : string) : bool :=
  bool_decide (p ∈ ["ls"; "cat"; "sort"; "sleep"; "true"; "false"; "kill9"]%string).

Definition env_demo : Env.
Proof.
  refine {|
    env_home := Some "/home/u"%string;
    env_found := demo_found;
    env_run := demo_run;
    env_run_valid := _;
    env_fork_fails := fun _ => false;
    env_fork_errno := EAGAIN;
    env_bg_done := fun _ => false;
    env_status_addr := 2147226164%Z
  |}.
  intros a t fs. unfold demo_run, valid_status. destruct a as [|p a]; simpl; [left; eauto|].
  destruct (p =s= "false"); [left; eauto|].
  destruct (p =s= "kill9"); [right; exists 9%Z, false; split; [lia|done]|left; eauto].
Defined.

(** ** Lemmas *)

Lemma size_ge_prefix (t : fdtable) (k : Z) :
  (0 <= k)%Z -> (forall j, (0 <= j < k)%Z -> is_Some (t !! j)) -> (Z.to_nat k <= size t)%nat.
Proof.
  intros H0 Hk.
  assert (Hsub : list_to_set (seqZ 0 k) ⊆ dom t).
  { intros j Hj. apply elem_of_list_to_set, elem_of_seqZ in Hj. apply elem_of_dom, Hk. lia. }
  apply subseteq_size in Hsub. rewrite size_list_to_set in Hsub by apply NoDup_seqZ.
  rewrite length_seqZ, size_dom in Hsub. lia.
Qed.

Lemma lowest_free_go_spec (n : nat) (k : Z) (t : fdtable) :
  (size t < n + Z.to_nat k)%nat -> (forall j, (0 <= j < k)%Z -> is_Some (t !! j)) ->
  (0 <= k)%Z -> t !! lowest_free_go n k t = None.
Proof.
  revert k; induction n as [|n IH]; intros k Hn Hk H0.
  - pose proof (size_ge_prefix t k H0 Hk). lia.
  - simpl. destruct (t !! k) eqn:E; [|done].
    apply IH; [lia| |lia]. intros j Hj.
    destruct (decide (j = k)) as [->|]; [by eexists|]. apply Hk. lia.
Qed.

(** [open] returns a descriptor that was free. *)
Lemma lowest_free_spec (t : fdtable) : t !! lowest_free t = None.
Proof. apply lowest_free_go_spec; [lia| |lia]. intros j Hj. lia. Qed.

Lemma lowest_free_fds0 : lowest_free fds0 = 3%Z.
Proof. reflexivity. Qed.

(** [dup2] of a descriptor just opened succeeds. *)
Lemma dup2_inserted (t : fdtable) (fd new : Z) (o : ofile) :
  dup2 (<[fd := o]> t) fd new = inl (<[new := o]> (<[fd := o]> t)).
Proof. unfold dup2. by rewrite lookup_insert_eq. Qed.

End Os.
