(* ===== verification/Stdio.v ===== *)
(** * Standard output and standard error through stdio

    The program writes with [printf] (standard output, a buffered stdio
    stream), [perror] (standard error, unbuffered) and calls
    [fflush(stdout)]; [exit] and the return from [main] flush standard
    output too, and [fgets] on a terminal flushes a line-buffered standard
    output before it blocks (glibc).  What reaches the terminal depends on
    the buffering mode glibc chose for standard output: line buffering on a
    terminal, full buffering on a pipe or a file, none after [setvbuf].

    [ev] is one such call, and the session of [Reaper] keeps the list of
    the calls the shell made, in order, together with [fgets] and [fork],
    where the buffer matters: the first is where the user must see the
    prompt, the second copies the buffer into the child.  [io_step] is the
    effect of one call on the stdio state [stdio] (the bytes pending in the
    buffer of standard output and the characters the terminal received, each
    tagged with its stream), for a [mode].

    [ordered] is the discipline the code follows: no write to standard
    error, no read and no [fork] while bytes written to standard output
    have not been flushed.  The simulation [io_sim] relates a buffered run
    to the unbuffered run of the same calls: the buffered terminal followed
    by the pending bytes is the unbuffered terminal, and nothing is pending
    when the discipline says the buffer is clean.  A fully buffered stream
    writes its whole buffer once it would exceed its capacity, where glibc
    writes it in chunks: this changes when bytes leave the buffer, never
    their order, which is all the theorems are about. *)

From S2P Require Import Prelude.

Module Stdio.

(** The calls on the streams, in the order the program makes them. *)
Inductive ev :=
| Wr (m : string)   (** [printf] on standard output *)
| Fl                (** [fflush(stdout)], or the flush done by [exit] *)
| Er (m : string)   (** a write to standard error ([perror]) *)
| Rd                (** [fgets] on standard input *)
| Fk.               (** [fork] *)

#[export] Instance ev_eq_dec : EqDecision ev.
Proof. solve_decision. Defined.

Inductive chan := Out | ErrOut.

#[export] Instance chan_eq_dec : EqDecision chan.
Proof. solve_decision. Defined.

(** The buffering of standard output; [FullyBuffered cap] writes its
    buffer out when it would hold more than [cap] bytes. *)
Inductive mode := Unbuffered | LineBuffered | FullyBuffered (cap : nat).

Record stdio := mkIO {
  io_buf : list ascii;
  io_tty : list (chan * ascii)
}.

Definition io0 : stdio := mkIO [] [].

Definition tag (c : chan) (l : list ascii) : list (chan * ascii) := map (pair c) l.

(** The length of [l] up to and including its last newline (0 if none). *)
Fixpoint last_nl (l : list ascii) : nat :=
  match l with
  | [] => 0
  | c :: l' =>
      match last_nl l' with
      | 0 => if Ascii.eqb c NL then 1 else 0
      | k => S k
      end
  end.

(** [printf] of [s]: the bytes join the buffer; a line-buffered stream
    writes everything up to the last newline, a fully buffered one
    everything once the buffer overflows. *)
Definition put (md : mode) (s : string) (st : stdio) : stdio :=
  let b := io_buf st ++ String.list_ascii_of_string s in
  match md with
  | Unbuffered => mkIO [] (io_tty st ++ tag Out b)
  | LineBuffered => mkIO (drop (last_nl b) b) (io_tty st ++ tag Out (take (last_nl b) b))
  | FullyBuffered cap =>
      if length b <=? cap then mkIO b (io_tty st) else mkIO [] (io_tty st ++ tag Out b)
  end.

Definition fflush (st : stdio) : stdio := mkIO [] (io_tty st ++ tag Out (io_buf st)).

Definition io_step (md : mode) (st : stdio) (e : ev) : stdio :=
  match e with
  | Wr s => put md s st
  | Fl => fflush st
  | Er s => mkIO (io_buf st) (io_tty st ++ tag ErrOut (String.list_ascii_of_string s))
  | Rd => match md with LineBuffered => fflush st | _ => st end
  | Fk => st
  end.

Definition io_run (md : mode) (es : list ev) (st : stdio) : stdio := fold_left (io_step md) es st.

(** Whether standard output may hold unflushed bytes after [es], from
    [dirty]. *)
Fixpoint dirty_after (dirty : bool) (es : list ev) : bool :=
  match es with
  | [] => dirty
  | Wr _ :: es' => dirty_after true es'
  | Fl :: es' => dirty_after false es'
  | _ :: es' => dirty_after dirty es'
  end.

(** The discipline: standard error, [fgets] and [fork] only on a clean
    buffer. *)
Fixpoint ordered (dirty : bool) (es : list ev) : bool :=
  match es with
  | [] => true
  | Wr _ :: es' => ordered true es'
  | Fl :: es' => ordered false es'
  | _ :: es' => negb dirty && ordered dirty es'
  end.

(** The last two calls before the next one. *)
Definition shift (p : option ev * option ev) (e : ev) : option ev * option ev := (p.2, Some e).

(** Every [fgets] comes right after [printf(pr)] and [fflush(stdout)]. *)
Fixpoint reads_after (pr : string) (p : option ev * option ev) (es : list ev) : bool :=
  match es with
  | [] => true
  | e :: es' =>
      match e with Rd => bool_decide (p = (Some (Wr pr), Some Fl)) | _ => true end &&
      reads_after pr (shift p e) es'
  end.

Definition prompted (pr : string) (es : list ev) : bool := reads_after pr (None, None) es.

(** The relation of the simulation between a buffered state and the
    unbuffered one. *)
Definition io_rel (dirty : bool) (st su : stdio) : Prop :=
  io_buf su = [] /\ io_tty st ++ tag Out (io_buf st) = io_tty su /\
  (dirty = false -> io_buf st = []).

(** ** Lemmas *)

Lemma tag_app (c : chan) (l1 l2 : list ascii) : tag c (l1 ++ l2) = tag c l1 ++ tag c l2.
Proof. apply map_app. Qed.

#[export] Hint Rewrite tag_app : smallsh.

Lemma io_run_app (md : mode) (es1 es2 : list ev) (st : stdio) :
  io_run md (es1 ++ es2) st = io_run md es2 (io_run md es1 st).
Proof. apply fold_left_app. Qed.

Lemma ordered_app (d : bool) (es1 es2 : list ev) :
  ordered d (es1 ++ es2) = ordered d es1 && ordered (dirty_after d es1) es2.
Proof.
  revert d; induction es1 as [|e es1 IH]; intros d; [done|].
  destruct e; simpl; rewrite ?IH; [done|done|..]; by destruct d.
Qed.

Lemma dirty_after_app (d : bool) (es1 es2 : list ev) :
  dirty_after d (es1 ++ es2) = dirty_after (dirty_after d es1) es2.
Proof. revert d; induction es1 as [|e es1 IH]; intros d; [done|]. destruct e; apply IH. Qed.

(** A [printf] keeps the bytes in order: what the terminal gets and what
    stays in the buffer are the old buffer followed by the new bytes. *)
Lemma put_split (md : mode) (s : string) (st : stdio) :
  io_tty (put md s st) ++ tag Out (io_buf (put md s st)) =
  io_tty st ++ tag Out (io_buf st ++ String.list_ascii_of_string s).
Proof.
  unfold put. destruct md as [| |cap]; simpl.
  - by rewrite app_nil_r.
  - by rewrite <- app_assoc, <- tag_app, take_drop.
  - destruct (_ <=? cap); simpl; by rewrite ?app_nil_r.
Qed.

Lemma io_sim_step (md : mode) (d : bool) (e : ev) (st su : stdio) :
  ordered d [e] = true -> io_rel d st su ->
  io_rel (dirty_after d [e]) (io_step md st e) (io_step Unbuffered su e).
Proof.
  intros Ho (Hu & Ht & Hc). unfold io_rel.
  destruct e as [m| |m| |]; simpl in *.
  - rewrite Hu. split_and!; [done| |done].
    by rewrite put_split, tag_app, app_assoc, Ht.
  - rewrite Hu. split_and!; [done| |done]. by rewrite !app_nil_r.
  - destruct d; [done|]. rewrite Hc in Ht |- * by done. rewrite Hu.
    split_and!; [done| |done]. simpl in *. rewrite !app_nil_r in Ht |- *. by rewrite Ht.
  - destruct d; [done|]. specialize (Hc eq_refl).
    destruct md; simpl; rewrite ?Hc in Ht |- *; (split_and!; [done| |done]);
      rewrite <- Ht; simpl; by rewrite ?app_nil_r.
  - destruct d; done.
Qed.

(** The simulation, by induction on the calls. *)
Lemma io_sim (md : mode) (es : list ev) (d : bool) (st su : stdio) :
  ordered d es = true -> io_rel d st su ->
  io_rel (dirty_after d es) (io_run md es st) (io_run Unbuffered es su).
Proof.
  revert d st su; induction es as [|e es IH]; intros d st su Ho Hr; [done|].
  change (e :: es) with ([e] ++ es) in Ho |- *.
  rewrite ordered_app in Ho. apply andb_true_iff in Ho as [H1 H2].
  rewrite !io_run_app, dirty_after_app.
  apply IH; [done|]. by apply io_sim_step.
Qed.

Lemma io_rel_0 : io_rel false io0 io0.
Proof. done. Qed.

(** A clean point of an ordered log: nothing pending, and the terminal is
    the unbuffered one. *)
Lemma io_clean (md : mode) (es : list ev) :
  ordered false es = true -> dirty_after false es = false ->
  io_buf (io_run md es io0) = [] /\ io_tty (io_run md es io0) = io_tty (io_run Unbuffered es io0).
Proof.
  intros Ho Hd. destruct (io_sim md es false io0 io0 Ho io_rel_0) as (_ & Ht & Hc).
  rewrite Hd in Hc. specialize (Hc eq_refl). rewrite Hc, app_nil_r in Ht. done.
Qed.

(** The next call after [es] needs a clean buffer. *)
Lemma ordered_sync (d : bool) (es es' : list ev) (e : ev) :
  ordered d (es ++ e :: es') = true -> e = Rd \/ e = Fk \/ (exists m, e = Er m) ->
  dirty_after d es = false.
Proof.
  rewrite ordered_app. intros [_ Ho]%andb_true_iff He.
  destruct He as [->|[->|[m ->]]]; simpl in Ho; by destruct (dirty_after d es).
Qed.

Lemma reads_after_app (pr : string) (p : option ev * option ev) (es1 es2 : list ev) :
  reads_after pr p (es1 ++ es2) = reads_after pr p es1 && reads_after pr (fold_left shift es1 p) es2.
Proof.
  revert p; induction es1 as [|e es1 IH]; intros p; [done|]. simpl. rewrite IH. apply andb_assoc.
Qed.

Lemma reads_after_no_read (pr : string) (p : option ev * option ev) (es : list ev) :
  Rd ∉ es -> reads_after pr p es = true.
Proof.
  revert p; induction es as [|e es IH]; intros p Hn; [done|].
  apply not_elem_of_cons in Hn as [He Hn]. simpl. rewrite IH by done.
  by destruct e.
Qed.

(** Two calls recorded by [shift] from the start are the last two. *)
Lemma fold_shift_last2 (es : list ev) (x y : ev) :
  fold_left shift es (None, None) = (Some x, Some y) -> exists es0, es = es0 ++ [x; y].
Proof.
  destruct es as [|e2 es2 _] using rev_ind; [done|].
  rewrite fold_left_app. simpl. intros [= Hx <-].
  destruct es2 as [|e1 es1 _] using rev_ind; [done|].
  rewrite fold_left_app in Hx. simpl in Hx. injection Hx as <-.
  exists es1. by rewrite <- app_assoc.
Qed.

Lemma prompted_read (pr : string) (es es1 es2 : list ev) :
  prompted pr es = true -> es = es1 ++ Rd :: es2 -> exists es0, es1 = es0 ++ [Wr pr; Fl].
Proof.
  intros Hp ->. unfold prompted in Hp. rewrite reads_after_app in Hp.
  apply andb_true_iff in Hp as [_ Hp]. simpl in Hp.
  apply andb_true_iff in Hp as [Hp _]. apply bool_decide_eq_true_1 in Hp.
  by apply fold_shift_last2.
Qed.

(** Unbuffered, nothing is ever pending. *)
Lemma io_run_unbuffered_buf (es : list ev) (st : stdio) :
  io_buf st = [] -> io_buf (io_run Unbuffered es st) = [].
Proof.
  revert st; induction es as [|e es IH]; intros st Hb; [done|]. apply IH.
  destruct e; simpl; [done|done|done|done|done].
Qed.

End Stdio.
