(* ===== verification/Input.v ===== *)
(** * Reading a line: [fgets] and the newline loop of [getInput]

    Lines 89-99 of [src/driver.c]: the prompt [": "] is printed, [fgets]
    reads at most [INPUTSIZE - 1] bytes of standard input, stopping after a
    newline, and the loop replaces every newline of the buffer by a NUL.
    Standard input is the [string] of the bytes not read yet.  [fgets]
    returns [None] at end of file, where the C code goes on with a buffer it
    never filled. *)

From S2P Require Import Prelude CStr.

Module Input.

Definition INPUTSIZE : nat := 2048.

Definition PROMPT : string := ": ".

(** The bytes [fgets(buf, S n, stdin)] stores: at most [n] of them, the
    newline included, and what remains of the stream. *)
Fixpoint fgets_go (n : nat) (stdin : string) : string * string :=
  match n, stdin with
  | 0, _ => (""%string, stdin)
  | _, EmptyString => (""%string, ""%string)
  | S n', String c r =>
      if Ascii.eqb c NL then (String c "", r)
      else let '(l, rest) := fgets_go n' r in (String c l, rest)
  end.

(** [fgets(input, size, stdin)]: [None] when no byte is left. *)
Definition fgets (size : nat) (stdin : string) : option (string * string) :=
  match stdin with
  | EmptyString => None
  | _ => Some (fgets_go (size - 1) stdin)
  end.

(** [for (i = 0; i < sizeof(input); i++) if (input[i] == '\n') input[i] = '\0';]
    on the bytes [fgets] stored and their terminator; the string the rest of
    [getInput] sees is the C string of the result. *)
Definition nl_to_nul (c : ascii) : ascii := if Ascii.eqb c NL then NUL else c.

Definition remove_newline (raw : string) : string :=
  CStr.cstr (map nl_to_nul (String.list_ascii_of_string raw ++ [NUL])).

(** ** Lemmas *)

Lemma fgets_go_app (n : nat) (s : string) :
  let '(l, rest) := fgets_go n s in s = (l +:+ rest)%string.
Proof.
  revert s; induction n as [|n IH]; intros [|c r]; simpl; try done.
  destruct (Ascii.eqb c NL); [done|].
  specialize (IH r). destruct (fgets_go n r) as [l rest]. by subst r.
Qed.

(** A line without newline of [n] bytes or more is cut after [n]. *)
Lemma fgets_go_long (n : nat) (s t : string) :
  String.length s = n -> NL ∉ String.list_ascii_of_string s ->
  fgets_go n (s +:+ t) = (s, t).
Proof.
  revert n; induction s as [|c s IH]; intros n Hl Hn; simpl in *; subst; [by destruct t|].
  rewrite string_app_cons. simpl.
  destruct (Ascii.eqb_spec c NL) as [->|]; [exfalso; apply Hn; left|].
  rewrite IH; [done|done|]. intros Hin; apply Hn; by right.
Qed.

Lemma fgets_go_line (n : nat) (s t : string) :
  String.length s < n -> NL ∉ String.list_ascii_of_string s ->
  fgets_go n (s +:+ String NL t) = ((s +:+ String NL "")%string, t).
Proof.
  revert n; induction s as [|c s IH]; intros n Hl Hn; simpl in *.
  - destruct n; [lia|]. simpl. by rewrite ?Ascii.eqb_refl.
  - destruct n as [|n]; [lia|]. rewrite string_app_cons. simpl.
    destruct (Ascii.eqb_spec c NL) as [->|]; [exfalso; apply Hn; left|].
    rewrite IH; [done|lia|]. intros Hin; apply Hn; by right.
Qed.

Lemma remove_newline_clean (s : string) :
  NL ∉ String.list_ascii_of_string s -> CStr.nul_free s ->
  remove_newline s = s.
Proof.
  intros Hnl Hnul. unfold remove_newline. rewrite map_app. simpl.
  replace (map nl_to_nul (String.list_ascii_of_string s))
    with (String.list_ascii_of_string s).
  - rewrite CStr.cstr_app_nul by done. apply String.string_of_list_ascii_of_string.
  - induction s as [|c s IH]; simpl in *; [done|].
    unfold nl_to_nul at 1. destruct (Ascii.eqb_spec c NL) as [->|]; [exfalso; apply Hnl; left|].
    rewrite <- IH; [done| |].
    + intros Hin; apply Hnl; by right.
    + by apply CStr.nul_free_cons in Hnul as [_ ?].
Qed.

End Input.
