(* ===== verification/Strtok.v ===== *)
(** * [strtok(_, " ")]

    [getInput] (lines 111, 130, 137, 155 of [src/driver.c]) walks the line
    with [strtok] and the delimiter set [" "]: every call skips the spaces at
    the saved position, returns the token up to the next space (or the end)
    and saves the position after that space; once the end is reached it
    returns NULL, and goes on returning NULL.  The saved position is the
    [string] of the bytes after it.  [split_spaces] is the reference: the
    words of a string separated by runs of spaces; [strtok_split] relates
    one call of [strtok] to it. *)

From S2P Require Import Prelude.

Module Strtok.

(** [s += strspn(s, " ")] *)
Fixpoint skip_spaces (s : string) : string :=
  match s with
  | EmptyString => EmptyString
  | String c r => if Ascii.eqb c SPACE then skip_spaces r else s
  end.

(** The token at the start of [s] and the position after the space that
    ends it ([strpbrk], the space overwritten by NUL, [olds = s + 1]). *)
Fixpoint span_token (s : string) : string * string :=
  match s with
  | EmptyString => (EmptyString, EmptyString)
  | String c r =>
      if Ascii.eqb c SPACE then (EmptyString, r)
      else let '(t, rest) := span_token r in (String c t, rest)
  end.

(** One call [strtok(NULL, " ")] from the saved position [olds]: the token
    or NULL, and the new saved position. *)
Definition strtok (olds : string) : option string * string :=
  match skip_spaces olds with
  | EmptyString => (None, EmptyString)
  | s => let '(t, rest) := span_token s in (Some t, rest)
  end.

(** ** The reference: words separated by runs of spaces *)

Fixpoint split_go (s cur : string) : list string :=
  match s with
  | EmptyString => if String.eqb cur "" then [] else [cur]
  | String c r =>
      if Ascii.eqb c SPACE then
        (if String.eqb cur "" then split_go r "" else cur :: split_go r "")
      else split_go r (cur +:+ String c "")
  end.

Definition split_spaces (s : string) : list string := split_go s "".

(** ** Lemmas *)

Lemma split_go_skip (s : string) : split_go (skip_spaces s) "" = split_go s "".
Proof.
  induction s as [|c s IH]; simpl; [done|].
  destruct (Ascii.eqb_spec c SPACE); simpl; [done|].
  by destruct (Ascii.eqb_spec c SPACE).
Qed.

Lemma split_go_span (s cur : string) :
  cur +:+ fst (span_token s) ≠ ""%string ->
  split_go s cur = (cur +:+ fst (span_token s))%string :: split_go (snd (span_token s)) "".
Proof.
  revert cur; induction s as [|c s IH]; intros cur Hne; simpl in *.
  - rewrite string_app_nil_r in *. by rewrite (streq_ne _ _ Hne).
  - destruct (Ascii.eqb_spec c SPACE) as [->|Hc]; simpl in *.
    + rewrite string_app_nil_r in *. by rewrite (streq_ne _ _ Hne).
    + destruct (span_token s) as [t rest] eqn:Hs; simpl in *.
      rewrite IH; rewrite <- string_app_assoc; [done|]. by rewrite string_app_cons.
Qed.

Lemma skip_spaces_head (s : string) :
  match skip_spaces s with
  | EmptyString => True
  | String c _ => c ≠ SPACE
  end.
Proof.
  induction s as [|c s IH]; simpl; [done|].
  by destruct (Ascii.eqb_spec c SPACE).
Qed.

Lemma span_token_nonempty (c : ascii) (r : string) :
  c ≠ SPACE -> fst (span_token (String c r)) ≠ ""%string.
Proof.
  intros Hc. simpl. destruct (Ascii.eqb_spec c SPACE); [done|].
  by destruct (span_token r).
Qed.

(** One [strtok] call returns the first word and leaves the others. *)
Lemma strtok_split (s : string) :
  match strtok s with
  | (None, rest) => split_spaces s = [] /\ rest = ""%string
  | (Some t, rest) => split_spaces s = t :: split_spaces rest
  end.
Proof.
  unfold strtok, split_spaces. rewrite <- split_go_skip.
  pose proof (skip_spaces_head s) as Hh.
  destruct (skip_spaces s) as [|c r] eqn:E; [done|].
  pose proof (span_token_nonempty c r Hh) as Hne.
  rewrite (split_go_span _ ""); [|done].
  by destruct (span_token (String c r)).
Qed.

(** Each call that returns a token consumes at least one byte. *)
Lemma skip_spaces_length (s : string) : String.length (skip_spaces s) <= String.length s.
Proof.
  induction s as [|c s IH]; simpl; [lia|]. destruct (Ascii.eqb c SPACE); simpl; lia.
Qed.

Lemma span_token_length (s : string) :
  String.length (snd (span_token s)) + String.length (fst (span_token s)) <= String.length s.
Proof.
  induction s as [|c s IH]; simpl; [lia|].
  destruct (Ascii.eqb c SPACE); simpl; [lia|].
  destruct (span_token s); simpl in *; lia.
Qed.

Lemma strtok_length (s : string) :
  match strtok s with
  | (None, rest) => rest = ""%string
  | (Some _, rest) => String.length rest < String.length s
  end.
Proof.
  unfold strtok. pose proof (skip_spaces_length s) as Hl.
  pose proof (skip_spaces_head s) as Hh.
  destruct (skip_spaces s) as [|c r] eqn:E; [done|].
  pose proof (span_token_length (String c r)) as Hs.
  pose proof (span_token_nonempty c r Hh) as Hne.
  destruct (span_token (String c r)) as [t rest]; simpl in *.
  destruct t; [done|]. simpl in *; lia.
Qed.

(** The words of a string are made of its bytes and hold no space. *)
Lemma split_go_chars (P : ascii -> Prop) (s cur : string) :
  Forall P (String.list_ascii_of_string s) -> Forall P (String.list_ascii_of_string cur) ->
  SPACE ∉ String.list_ascii_of_string cur ->
  Forall (fun w => Forall P (String.list_ascii_of_string w) /\ SPACE ∉ String.list_ascii_of_string w)
    (split_go s cur).
Proof.
  revert cur; induction s as [|c r IH]; intros cur Hs Hc Hsp; simpl.
  - destruct (cur =s= ""); repeat constructor; done.
  - apply Forall_cons in Hs as [Hpc Hr].
    destruct (Ascii.eqb_spec c SPACE) as [->|Hne].
    + destruct (cur =s= ""); [|constructor; [done|]]; apply IH; try done; simpl; set_solver.
    + apply IH; [done| |]; rewrite list_ascii_app; simpl.
      * apply Forall_app; split; [done|by constructor].
      * by apply not_elem_of_snoc.
Qed.

Lemma split_spaces_chars (P : ascii -> Prop) (s : string) :
  Forall P (String.list_ascii_of_string s) ->
  Forall (fun w => Forall P (String.list_ascii_of_string w) /\ SPACE ∉ String.list_ascii_of_string w)
    (split_spaces s).
Proof. intros Hs. apply split_go_chars; [done|constructor|set_solver]. Qed.

End Strtok.
