(* ===== verification/Subst.v ===== *)
(** * The [$$] substitution of [getInput]

    Lines 142-152 of [src/driver.c]: a token is copied with [strdup], then a
    loop over its bytes, at the first [$$], writes NUL over both dollars and
    [strcat]s the decimal pid, which lands at the first of them.  Whatever
    followed the [$$] is overwritten or cut off, the scan goes on over the
    digits just written, which hold no [$], and the pid is written past the
    [strdup] block when it is longer than the rest of the token.

    [subst_loop] is the loop on the heap block, [first_subst] the reference
    (the token up to its first [$$], then the pid), [find_pair] the index of
    the first [$$].  [subst_loop_spec] gives the exact block the loop
    leaves, and [subst_block] pairs it with the size [strdup] allocated. *)

From S2P Require Import Prelude CStr.

Module Subst.
Import CStr.

(** [for (int j = 0; data[i][j]; j++) if (data[i][j] == '$' && data[i][j + 1] == '$')
      { data[i][j] = '\0'; data[i][j + 1] = '\0'; ...; strcat(data[i], buffer); }] *)
Fixpoint subst_loop (fuel : nat) (pidstr : string) (j : nat) (b : buffer) : buffer :=
  match fuel with
  | 0 => b
  | S fuel' =>
      match b !! j with
      | None => b
      | Some c =>
          if Ascii.eqb c NUL then b
          else
            let b' :=
              if Ascii.eqb c DOLLAR
                 && match b !! (j + 1) with Some d => Ascii.eqb d DOLLAR | None => false end
              then strcat (<[j + 1 := NUL]> (<[j := NUL]> b)) pidstr
              else b in
            subst_loop fuel' pidstr (S j) b'
      end
  end.

(** The loop runs over the token and then over the pid's digits. *)
Definition subst_fuel (t pidstr : string) : nat :=
  String.length t + String.length pidstr + 1.

(** The block [data[i]] points to after the loop. *)
Definition subst_buffer (pid : Z) (t : string) : buffer :=
  let p := snprintf_d pid in subst_loop (subst_fuel t p) p 0 (strdup t).

(** The block [data[i]] points to: allocated by [strdup(token)], written by
    the loop. *)
Definition subst_block (pid : Z) (t : string) : block :=
  mkBlock (length (strdup t)) (subst_buffer pid t).

(** [data[i]] as a C string. *)
Definition expand (pid : Z) (t : string) : string := cstr (subst_buffer pid t).

(** ** Reference *)

Fixpoint find_pair (s : string) : option nat :=
  match s with
  | String c ((String d _) as r) =>
      if Ascii.eqb c DOLLAR && Ascii.eqb d DOLLAR then Some 0 else S <$> find_pair r
  | _ => None
  end.

Fixpoint first_subst (p s : string) : string :=
  match s with
  | String c ((String d _) as r) =>
      if Ascii.eqb c DOLLAR && Ascii.eqb d DOLLAR then p else String c (first_subst p r)
  | _ => s
  end.

(** ** Lemmas on blocks *)

Lemma lookup_app_add {A} (l1 l2 : list A) (i : nat) :
  (l1 ++ l2) !! (length l1 + i) = l2 !! i.
Proof. rewrite lookup_app_r by lia. f_equal. lia. Qed.

(** A scan over bytes without [$] leaves the block as it is. *)
Lemma subst_loop_plain (fuel : nat) (p q : string) (pre junk : buffer) :
  nul_free q -> DOLLAR ∉ String.list_ascii_of_string q ->
  String.length q < fuel ->
  subst_loop fuel p (length pre) (pre ++ String.list_ascii_of_string q ++ NUL :: junk)
  = pre ++ String.list_ascii_of_string q ++ NUL :: junk.
Proof.
  revert pre fuel; induction q as [|c q IH]; intros pre [|fuel] Hn Hd Hl; simpl in *; try lia.
  - rewrite <- (Nat.add_0_r (length pre)), lookup_app_add. done.
  - apply nul_free_cons in Hn as [Hc Hn].
    rewrite <- (Nat.add_0_r (length pre)), lookup_app_add. simpl.
    destruct (Ascii.eqb_spec c NUL); [done|].
    destruct (Ascii.eqb_spec c DOLLAR) as [->|]; [exfalso; apply Hd; left|]. simpl.
    rewrite Nat.add_0_r, (app_snoc_cons pre), <- (length_snoc pre c), IH; [done|done| |lia].
    intros Hin; apply Hd; by right.
Qed.

(** [strcat] after the two NUL writes of a [$$] found at [length pre]. *)
Lemma strcat_at_pair (p r : string) (pre junk : buffer) :
  NUL ∉ pre ->
  strcat (<[length pre + 1 := NUL]> (<[length pre := NUL]>
            (pre ++ DOLLAR :: DOLLAR :: String.list_ascii_of_string r ++ NUL :: junk))) p
  = pre ++ String.list_ascii_of_string p ++ NUL ::
      drop (String.length p + 1) (NUL :: NUL :: String.list_ascii_of_string r ++ NUL :: junk).
Proof.
  intros Hpre.
  rewrite <- (Nat.add_0_r (length pre)) at 2. rewrite !insert_app_r. simpl.
  unfold strcat. rewrite strlen_app_nul by done. rewrite take_app_length.
  by rewrite <- Nat.add_assoc, drop_app_add.
Qed.

Lemma dollar_pair_false (c d : ascii) :
  ¬ (c = DOLLAR /\ d = DOLLAR) -> (Ascii.eqb c DOLLAR && Ascii.eqb d DOLLAR) = false.
Proof. destruct (Ascii.eqb_spec c DOLLAR), (Ascii.eqb_spec d DOLLAR); naive_solver. Qed.

Lemma find_pair_cons_ne (c d : ascii) (r : string) :
  ¬ (c = DOLLAR /\ d = DOLLAR) ->
  find_pair (String c (String d r)) = S <$> find_pair (String d r).
Proof.
  intros Hn.
  change (find_pair (String c (String d r))) with
    (if Ascii.eqb c DOLLAR && Ascii.eqb d DOLLAR then Some 0 else S <$> find_pair (String d r)).
  by rewrite dollar_pair_false.
Qed.

(** The block the loop leaves: the substitution at the first [$$], if any. *)
Lemma subst_loop_spec (fuel : nat) (p s : string) (pre junk : buffer) :
  nul_free s -> NUL ∉ pre -> nul_free p -> DOLLAR ∉ String.list_ascii_of_string p ->
  String.length s + String.length p < fuel ->
  let b := pre ++ String.list_ascii_of_string s ++ NUL :: junk in
  subst_loop fuel p (length pre) b =
  match find_pair s with
  | None => b
  | Some k => strcat (<[length pre + k + 1 := NUL]> (<[length pre + k := NUL]> b)) p
  end.
Proof.
  revert pre fuel; induction s as [|c s IH]; intros pre [|fuel] Hs Hpre Hp Hpd Hl; simpl in *; try lia.
  - rewrite <- (Nat.add_0_r (length pre)), lookup_app_add. done.
  - apply nul_free_cons in Hs as [Hc Hs].
    rewrite <- (Nat.add_0_r (length pre)) at 1. rewrite lookup_app_add. simpl.
    destruct (Ascii.eqb_spec c NUL); [done|].
    rewrite lookup_app_add. simpl.
    destruct s as [|d r].
    + simpl. rewrite andb_false_r, (app_snoc_cons pre), <- (length_snoc pre c).
      apply (subst_loop_plain _ _ "" (pre ++ [c])); [set_solver|set_solver|simpl; lia].
    + apply nul_free_cons in Hs as [Hd Hr].
      destruct (decide (c = DOLLAR /\ d = DOLLAR)) as [[-> ->]|Hnd].
      * simpl. rewrite !Nat.add_0_r, strcat_at_pair by done.
        destruct p as [|p0 q]; simpl in *.
        { destruct fuel as [|fuel]; [lia|]. simpl.
          replace (S (length pre)) with (length pre + 1) by lia.
          by rewrite lookup_app_add. }
        apply nul_free_cons in Hp as [_ Hq].
        rewrite (app_snoc_cons pre), <- (length_snoc pre p0).
        apply subst_loop_plain; [done| |lia].
        intros Hin; apply Hpd; by right.
      * remember (find_pair (String d r)) as fp eqn:Hfp.
        simpl. rewrite !dollar_pair_false by done.
        rewrite (app_snoc_cons pre), <- (length_snoc pre c), IH;
          [|by apply nul_free_cons|by apply not_elem_of_snoc|done|done|simpl in *; lia].
        destruct fp as [k|]; simpl; [|done].
        rewrite length_snoc. by replace (length pre + S k) with (S (length pre) + k) by lia.
Qed.

(** ** The reference and the first [$$] *)

Lemma find_pair_pair (r : string) : find_pair (String DOLLAR (String DOLLAR r)) = Some 0.
Proof. reflexivity. Qed.

Lemma first_subst_cons_ne (p : string) (c d : ascii) (r : string) :
  ¬ (c = DOLLAR /\ d = DOLLAR) ->
  first_subst p (String c (String d r)) = String c (first_subst p (String d r)).
Proof.
  intros Hn.
  change (first_subst p (String c (String d r))) with
    (if Ascii.eqb c DOLLAR && Ascii.eqb d DOLLAR then p else String c (first_subst p (String d r))).
  by rewrite dollar_pair_false.
Qed.

Lemma find_pair_None (p s : string) : find_pair s = None -> first_subst p s = s.
Proof.
  induction s as [|c s IH]; [done|]. destruct s as [|d r]; [done|].
  destruct (decide (c = DOLLAR /\ d = DOLLAR)) as [[-> ->]|Hn];
    [by rewrite find_pair_pair|].
  rewrite find_pair_cons_ne, first_subst_cons_ne by done.
  intros H. rewrite IH; [done|]. by destruct (find_pair (String d r)).
Qed.

(** Where [find_pair] points, the token is [a], [$$], [r]. *)
Lemma find_pair_Some (p s : string) (k : nat) :
  find_pair s = Some k ->
  exists a r, s = (a +:+ String DOLLAR (String DOLLAR r))%string /\
              String.length a = k /\ first_subst p s = (a +:+ p)%string.
Proof.
  revert k; induction s as [|c s IH]; intros k; [done|].
  destruct s as [|d r]; [done|].
  destruct (decide (c = DOLLAR /\ d = DOLLAR)) as [[-> ->]|Hn].
  - rewrite find_pair_pair. intros [= <-]. by exists ""%string, r.
  - rewrite find_pair_cons_ne, first_subst_cons_ne by done.
    destruct (find_pair (String d r)) as [k'|] eqn:E; [|done]. intros [= <-].
    destruct (IH k' eq_refl) as (a & r' & Ha & Hl & Hf).
    exists (String c a), r'. rewrite Ha at 1. by rewrite Hf, <- Hl.
Qed.

(** ** The block and the string the loop leaves *)

Lemma subst_buffer_spec (pid : Z) (t : string) :
  nul_free t ->
  subst_buffer pid t =
  match find_pair t with
  | None => strdup t
  | Some k => strcat (<[k + 1 := NUL]> (<[k := NUL]> (strdup t))) (snprintf_d pid)
  end.
Proof.
  intros Ht. unfold subst_buffer, subst_fuel.
  apply (subst_loop_spec _ _ _ [] []);
    [done|set_solver|apply snprintf_d_nul_free|apply snprintf_d_no_dollar|lia].
Qed.

Lemma subst_buffer_at_pair (pid : Z) (a r : string) :
  nul_free (a +:+ String DOLLAR (String DOLLAR r)) ->
  find_pair (a +:+ String DOLLAR (String DOLLAR r)) = Some (String.length a) ->
  subst_buffer pid (a +:+ String DOLLAR (String DOLLAR r)) =
  String.list_ascii_of_string a ++ String.list_ascii_of_string (snprintf_d pid) ++ NUL ::
    drop (String.length (snprintf_d pid) + 1) (NUL :: NUL :: String.list_ascii_of_string r ++ [NUL]).
Proof.
  intros Ht Hk. rewrite subst_buffer_spec, Hk by done.
  apply nul_free_app in Ht as [Ha _].
  unfold strdup. rewrite list_ascii_app, <- app_assoc, <- length_list_ascii. simpl.
  by rewrite strcat_at_pair.
Qed.

(** The token up to its first [$$], then the pid. *)
Lemma expand_at_pair (pid : Z) (a r : string) :
  nul_free (a +:+ String DOLLAR (String DOLLAR r)) ->
  find_pair (a +:+ String DOLLAR (String DOLLAR r)) = Some (String.length a) ->
  expand pid (a +:+ String DOLLAR (String DOLLAR r)) = (a +:+ snprintf_d pid)%string.
Proof.
  intros Ht Hk. unfold expand. rewrite subst_buffer_at_pair by done.
  apply nul_free_app in Ht as [Ha _].
  rewrite app_assoc, cstr_app_nul.
  - by rewrite <- list_ascii_app, String.string_of_list_ascii_of_string.
  - rewrite elem_of_app. intros [?|?]; [by apply Ha|by eapply snprintf_d_nul_free].
Qed.

Lemma expand_spec (pid : Z) (t : string) :
  nul_free t -> expand pid t = first_subst (snprintf_d pid) t.
Proof.
  intros Ht. destruct (find_pair t) as [k|] eqn:Hk.
  - destruct (find_pair_Some (snprintf_d pid) t k Hk) as (a & r & -> & <- & ->).
    by apply expand_at_pair.
  - unfold expand. rewrite subst_buffer_spec, Hk, find_pair_None by done. by apply cstr_strdup.
Qed.

Lemma subst_buffer_length_pair (pid : Z) (t : string) (k : nat) :
  nul_free t -> find_pair t = Some k ->
  length (subst_buffer pid t) =
  Nat.max (String.length t + 1) (k + String.length (snprintf_d pid) + 1).
Proof.
  intros Ht Hk.
  destruct (find_pair_Some (snprintf_d pid) t k Hk) as (a & r & -> & <- & _).
  rewrite subst_buffer_at_pair by done.
  rewrite string_length_app. simpl.
  rewrite !length_app. simpl. rewrite length_drop. simpl.
  rewrite length_app, !length_list_ascii. simpl. lia.
Qed.

(** A token without [$$] is left as it is. *)
Lemma expand_plain (pid : Z) (t : string) :
  nul_free t -> find_pair t = None -> expand pid t = t.
Proof. intros Ht Hk. rewrite expand_spec by done. by apply find_pair_None. Qed.

(** [data[i]] read as a C string never holds a NUL. *)
Lemma expand_nul_free (pid : Z) (t : string) : nul_free (expand pid t).
Proof. apply cstr_nul_free. Qed.

(** A decision procedure for [nul_free] on literals. *)
Lemma nul_free_bool (t : string) : bool_decide (nul_free t) = true -> nul_free t.
Proof. apply bool_decide_eq_true_1. Qed.

(** ** Properties *)

(** C4: The substitution loop on the [strdup] block computes
    the reference: every token without a NUL becomes [first_subst] of the
    pid's decimal form, that is, the token up to its first [$$] followed by
    the pid, or the token itself when it has no [$$]. *)
Theorem expand_first_subst (pid : Z) (t : string) :
  nul_free t -> expand pid t = first_subst (snprintf_d pid) t.
Proof. apply expand_spec. Qed.

Lemma expand_first_subst_witness :
  nul_free "echo$$" /\ expand 1234 "echo$$" = first_subst (snprintf_d 1234) "echo$$".
Proof.
  assert (H : nul_free "echo$$") by (apply nul_free_bool; vm_compute; reflexivity).
  split; [exact H|]. exact (expand_first_subst 1234 "echo$$" H).
Defined.

(** C12: Only the first [$$] is replaced, and everything after
    it is lost: a token [a $$ r] whose first [$$] follows [a] becomes [a] and
    the pid, whatever [r] holds, further [$$] included. *)
Theorem expand_drops_suffix (pid : Z) (a r : string) :
  nul_free (a +:+ String DOLLAR (String DOLLAR r)) ->
  find_pair (a +:+ String DOLLAR (String DOLLAR r)) = Some (String.length a) ->
  expand pid (a +:+ String DOLLAR (String DOLLAR r)) = (a +:+ snprintf_d pid)%string.
Proof. apply expand_at_pair. Qed.

Lemma expand_drops_suffix_witness :
  nul_free ("a" +:+ String DOLLAR (String DOLLAR "b$$"))%string /\
  find_pair ("a" +:+ String DOLLAR (String DOLLAR "b$$"))%string = Some (String.length "a") /\
  expand 1234 ("a" +:+ String DOLLAR (String DOLLAR "b$$"))%string = ("a" +:+ snprintf_d 1234)%string.
Proof.
  split; [vm_compute; intros H; repeat (apply elem_of_cons in H as [H|H]; [discriminate|]);
          by apply elem_of_nil in H|].
  split; [reflexivity|].
  apply expand_drops_suffix; [|reflexivity].
  vm_compute; intros H; repeat (apply elem_of_cons in H as [H|H]; [discriminate|]);
    by apply elem_of_nil in H.
Defined.

(** C7: The [strcat] of line 149 writes past the [strdup]
    block exactly when the pid's decimal form is longer than what follows the
    first [$$] plus two: the block grows beyond its allocation iff
    [|t| < k + |pid|]. *)
Theorem subst_heap_overflow (pid : Z) (t : string) :
  nul_free t ->
  length (strdup t) < length (subst_buffer pid t) <->
  exists k, find_pair t = Some k /\ String.length t < k + String.length (snprintf_d pid).
Proof.
  intros Ht. unfold strdup at 1. rewrite length_app, length_list_ascii. simpl.
  destruct (find_pair t) as [k|] eqn:Hk.
  - rewrite (subst_buffer_length_pair _ _ k) by done. split.
    + intros H. exists k. split; [done|lia].
    + intros (k' & [= <-] & H). lia.
  - rewrite subst_buffer_spec, Hk by done. unfold strdup.
    rewrite length_app, length_list_ascii. simpl. split; [lia|]. by intros (? & ? & _).
Qed.

Lemma subst_heap_overflow_witness :
  nul_free "$$" /\ length (strdup "$$") < length (subst_buffer 1234 "$$").
Proof.
  assert (H : nul_free "$$")
    by (vm_compute; intros H; repeat (apply elem_of_cons in H as [H|H]; [discriminate|]);
        by apply elem_of_nil in H).
  split; [exact H|].
  apply (proj2 (subst_heap_overflow 1234 "$$" H)). exists 0. split; [reflexivity|].
  vm_compute. lia.
Defined.

End Subst.
