(* ===== verification/Tokenizer.v ===== *)
(** * [getInput]: from a line of standard input to the argument array

    Lines 84-163 of [src/driver.c].  The state of the loop is the index
    [i], the array [data] ([char *data[]] with NULL slots: a [gmap] from
    index to string, a missing key is NULL), the buffers [input_file] and
    [output_file], the flag [check_background], the messages printed and
    the blocks allocated by [strdup], in order.
    [tok_loop] is the [while (token)] loop on the [strtok] position, with
    fuel; [parse_tokens] is the reference, the same loop over the list of
    words of the line; [tok_loop_parse] proves them equal, and with it that
    the fuel given by [getInput] is always enough.  [argv] is what
    [execvp(data[0], data)] (line 212) reads: the slots from 0 up to the
    first NULL.  [parse_tokens_inv] carries an invariant of the loop
    variables through the loop; with it, [getInput_wf] gives the type of
    the command and [getInput_heap] the ownership of its blocks. *)

From S2P Require Import Prelude CStr Input Strtok Subst.

Module Tokenizer.
Import CStr Input Strtok Subst.

Definition MAXARGS : nat := 512.

(** Arithmetic on the array bounds. *)
Ltac bound_lia := unfold MAXARGS, INPUTSIZE in *; simpl in *; lia.

Definition MAX_ARGS_MSG : string := "There is a max of 512 arguments." +:+ String NL "".

(** What [getInput] hands back to [main]: the argument array, the two
    redirection buffers and the background flag. *)
Record cmd := mkCmd {
  data : gmap nat string;
  input_file : string;
  output_file : string;
  background : bool;
  blocks : list block
}.

(** The loop variables of [getInput]. *)
Record tstate := mkT {
  t_i : nat;
  t_data : gmap nat string;
  t_in : string;
  t_out : string;
  t_check_bg : bool;
  t_msgs : list string;
  t_blocks : list block
}.

(** Before the first token: [i = 0], the array as [main] cleared it. *)
Definition tstate0 : tstate := mkT 0 ∅ "" "" false [] [].

Definition set_check_bg (b : bool) (st : tstate) : tstate :=
  mkT (t_i st) (t_data st) (t_in st) (t_out st) b (t_msgs st) (t_blocks st).

Definition set_in (p : string) (st : tstate) : tstate :=
  mkT (t_i st) (t_data st) p (t_out st) (t_check_bg st) (t_msgs st) (t_blocks st).

Definition set_out (p : string) (st : tstate) : tstate :=
  mkT (t_i st) (t_data st) (t_in st) p (t_check_bg st) (t_msgs st) (t_blocks st).

(** [data[i] = strdup(token)] and the [$$] loop: slot [i] points to the
    block, whose C string is the argument; the block is never freed. *)
Definition store_arg (b : block) (st : tstate) : tstate :=
  mkT (t_i st) (<[t_i st := cstr (b_bytes b)]> (t_data st)) (t_in st) (t_out st)
    (t_check_bg st) (t_msgs st) (t_blocks st ++ [b]).

Definition incr_i (st : tstate) : tstate :=
  mkT (S (t_i st)) (t_data st) (t_in st) (t_out st) (t_check_bg st) (t_msgs st) (t_blocks st).

Definition print (m : string) (st : tstate) : tstate :=
  mkT (t_i st) (t_data st) (t_in st) (t_out st) (t_check_bg st) (t_msgs st ++ [m]) (t_blocks st).

(** The outcomes of the loop: it ends, or [strcpy(output_file, NULL)] at
    line 138 crashes the shell, or the fuel runs out. *)
Inductive loop_result :=
| LDone (st : tstate)
| LCrash (st : tstate)
| LFuel.

(** The body of the loop after the cap test, lines 124-153, for the token
    [t] and the [strtok] position [olds]: the new state and position, or
    [None] for the crash. *)
Definition tok_body (pid : Z) (t olds : string) (st : tstate) : option (tstate * string) :=
  if t =s= "&" then Some (set_check_bg true st, olds)
  else if t =s= "<" then
    let '(tk, olds') := strtok olds in
    Some (match tk with Some p => set_in p st | None => st end, olds')
  else if t =s= ">" then
    let '(tk, olds') := strtok olds in
    match tk with Some p => Some (set_out p st, olds') | None => None end
  else Some (store_arg (subst_block pid t) st, olds).

(** [while (token) { check_background = 0; if (i >= 512) { printf; break; } ...;
      token = strtok(NULL, space); i++; }] *)
Fixpoint tok_loop (fuel : nat) (pid : Z) (token : option string) (olds : string)
    (st : tstate) : loop_result :=
  match fuel with
  | 0 => LFuel
  | S fuel' =>
      match token with
      | None => LDone st
      | Some t =>
          let st0 := set_check_bg false st in
          if MAXARGS <=? t_i st0 then LDone (print MAX_ARGS_MSG st0)
          else
            match tok_body pid t olds st0 with
            | None => LCrash st0
            | Some (st1, olds1) =>
                let '(tk, olds2) := strtok olds1 in
                tok_loop fuel' pid tk olds2 (incr_i st1)
            end
      end
  end.

(** What [getInput] returns to [main]: the command, the lines it printed
    and the input left; or end of file ([fgets] returns NULL, which the code
    does not test); or the crash; or the fuel running out. *)
Inductive get_result :=
| GotCmd (c : cmd) (out : list string) (rest : string)
| GotEof (out : list string)
| GotCrash (out : list string)
| GotFuel.

Definition cmd_of (st : tstate) : cmd :=
  mkCmd (t_data st) (t_in st) (t_out st) (t_check_bg st) (t_blocks st).

(** [getInput(data, input_file, output_file, &background, pid)] on the
    cleared buffers of [main]. *)
Definition getInput (pid : Z) (stdin : string) : get_result :=
  match fgets INPUTSIZE stdin with
  | None => GotEof [PROMPT]
  | Some (raw, rest) =>
      let line := remove_newline raw in
      if line =s= "" then GotCmd (mkCmd {[0 := ""]} "" "" false [strdup_block ""]) [PROMPT] rest
      else
        let '(tk, olds) := strtok line in
        match tok_loop (String.length line + 1) pid tk olds tstate0 with
        | LDone st => GotCmd (cmd_of st) (PROMPT :: t_msgs st) rest
        | LCrash st => GotCrash (PROMPT :: t_msgs st)
        | LFuel => GotFuel
        end
  end.

(** [execvp(data[0], data)] reads the array up to its first NULL; the
    array has [INPUTSIZE] slots. *)
Fixpoint argv_go (n i : nat) (d : gmap nat string) : list string :=
  match n with
  | 0 => []
  | S n' => match d !! i with Some a => a :: argv_go n' (S i) d | None => [] end
  end.

Definition argv (d : gmap nat string) : list string := argv_go INPUTSIZE 0 d.

(** ** The reference: the same loop over the words of the line *)

Fixpoint parse_tokens (pid : Z) (ts : list string) (st : tstate) : loop_result :=
  match ts with
  | [] => LDone st
  | t :: ts' =>
      let st0 := set_check_bg false st in
      if MAXARGS <=? t_i st0 then LDone (print MAX_ARGS_MSG st0)
      else if t =s= "&" then parse_tokens pid ts' (incr_i (set_check_bg true st0))
      else if t =s= "<" then
        match ts' with
        | [] => LDone (incr_i st0)
        | p :: ts'' => parse_tokens pid ts'' (incr_i (set_in p st0))
        end
      else if t =s= ">" then
        match ts' with
        | [] => LCrash st0
        | p :: ts'' => parse_tokens pid ts'' (incr_i (set_out p st0))
        end
      else parse_tokens pid ts' (incr_i (store_arg (subst_block pid t) st0))
  end.

Definition opt_list (o : option string) : list string :=
  match o with Some t => [t] | None => [] end.

(** The line [getInput] works on, and the input after it. *)
Definition read_line (stdin : string) : option (string * string) :=
  match fgets INPUTSIZE stdin with
  | None => None
  | Some (raw, rest) => Some (remove_newline raw, rest)
  end.

Definition result_of (rest : string) (r : loop_result) : get_result :=
  match r with
  | LDone st => GotCmd (cmd_of st) (PROMPT :: t_msgs st) rest
  | LCrash st => GotCrash (PROMPT :: t_msgs st)
  | LFuel => GotFuel
  end.

Definition getInput_ref (pid : Z) (stdin : string) : get_result :=
  match read_line stdin with
  | None => GotEof [PROMPT]
  | Some (line, rest) =>
      if line =s= "" then GotCmd (mkCmd {[0 := ""]} "" "" false [strdup_block ""]) [PROMPT] rest
      else result_of rest (parse_tokens pid (split_spaces line) tstate0)
  end.

(** A word that is not one of the three special tokens. *)
Definition plain (t : string) : bool := negb ((t =s= "&") || (t =s= "<") || (t =s= ">")).

Definition push_arg (pid : Z) (st : tstate) (t : string) : tstate :=
  incr_i (store_arg (subst_block pid t) (set_check_bg false st)).

Definition push_args (pid : Z) (ts : list string) (st : tstate) : tstate :=
  fold_left (push_arg pid) ts st.

(** A word of the line: a C string without a space. *)
Definition word_ok (w : string) : Prop :=
  nul_free w /\ SPACE ∉ String.list_ascii_of_string w.

(** The type of what [getInput] hands to [main]: every argument is a C
    string in one of the first [MAXARGS] of the [INPUTSIZE] slots of
    [input], and the two file names are words. *)
Definition cmd_wf (c : cmd) : Prop :=
  (forall k a, data c !! k = Some a -> k < MAXARGS /\ nul_free a) /\
  word_ok (input_file c) /\ word_ok (output_file c).

(** The same for the loop variables: the arguments are below [i], and [i]
    never passes the cap. *)
Definition tst_wf (st : tstate) : Prop :=
  t_i st <= MAXARGS /\
  (forall k a, t_data st !! k = Some a -> k < t_i st /\ nul_free a) /\
  word_ok (t_in st) /\ word_ok (t_out st).

(** The non-NULL slots of the array, in index order. *)
Definition slot_values (d : gmap nat string) : list string :=
  omap (fun k => d !! k) (seq 0 INPUTSIZE).

(** A block [strdup] allocated for a word of the line, after the [$$] loop. *)
Definition word_block (pid : Z) (b : block) : Prop :=
  exists t, word_ok t /\ b = subst_block pid t.

(** Ownership of the heap by a command: every block it allocated is the
    copy of a word of the line, and the non-NULL slots of [data] point to
    these blocks, one slot per block, in the order of allocation: no block
    is shared, none is lost before [main] clears the array. *)
Definition heap_ok (pid : Z) (c : cmd) : Prop :=
  Forall (word_block pid) (blocks c) /\
  map (fun b => cstr (b_bytes b)) (blocks c) = slot_values (data c).

(** The same for the loop variables, on the slots below [i]. *)
Definition tst_heap (pid : Z) (st : tstate) : Prop :=
  Forall (word_block pid) (t_blocks st) /\
  map (fun b => cstr (b_bytes b)) (t_blocks st) = omap (fun k => t_data st !! k) (seq 0 (t_i st)).

(** ** The loop is the reference *)

Definition measure (token : option string) (olds : string) : nat :=
  match token with Some _ => S (String.length olds) | None => 0 end.

Lemma strtok_measure (s : string) :
  measure (fst (strtok s)) (snd (strtok s)) <= String.length s.
Proof.
  pose proof (strtok_length s) as H.
  destruct (strtok s) as [[t|] rest]; simpl in *; lia.
Qed.

Lemma strtok_none_rest (s : string) :
  fst (strtok s) = None -> snd (strtok s) = ""%string.
Proof. pose proof (strtok_length s). by destruct (strtok s) as [[t|] rest]. Qed.

Lemma strtok_words (s : string) :
  split_spaces s = opt_list (fst (strtok s)) ++ split_spaces (snd (strtok s)).
Proof.
  pose proof (strtok_split s) as H.
  destruct (strtok s) as [[t|] rest]; simpl in *; [done|].
  destruct H as [-> ->]. done.
Qed.

Lemma split_spaces_nil : split_spaces "" = [].
Proof. reflexivity. Qed.

Theorem tok_loop_parse (fuel : nat) (pid : Z) (tk : option string) (olds : string)
    (st : tstate) :
  (tk = None -> olds = ""%string) -> measure tk olds < fuel ->
  tok_loop fuel pid tk olds st = parse_tokens pid (opt_list tk ++ split_spaces olds) st.
Proof.
  revert tk olds st; induction fuel as [|fuel IH]; intros tk olds st Hnone Hm; [lia|].
  destruct tk as [t|]; cbn [tok_loop opt_list app]; [|by rewrite (Hnone eq_refl)].
  simpl in Hm. cbn [parse_tokens].
  destruct (MAXARGS <=? t_i (set_check_bg false st)); [done|].
  unfold tok_body.
  (* the recursive call after a token, from the [strtok] position [o] *)
  assert (Hnext : forall o st', String.length o <= String.length olds ->
            (let '(tk', olds2) := strtok o in tok_loop fuel pid tk' olds2 st')
            = parse_tokens pid (split_spaces o) st').
  { intros o st' Ho. pose proof (strtok_measure o) as Hmo.
    pose proof (strtok_none_rest o) as Hno. rewrite (strtok_words o).
    destruct (strtok o) as [tk' olds2]; simpl in *. apply IH; [done|lia]. }
  case_streq; try (rewrite Hnext; [done|lia]).
  - pose proof (strtok_words olds) as Hw. pose proof (strtok_length olds) as Hl.
    destruct (strtok olds) as [[p|] olds'] eqn:E; simpl in *; rewrite Hw.
    + rewrite Hnext; [done|lia].
    + subst olds'. rewrite split_spaces_nil. simpl. destruct fuel; [lia|reflexivity].
  - pose proof (strtok_words olds) as Hw. pose proof (strtok_length olds) as Hl.
    destruct (strtok olds) as [[p|] olds'] eqn:E; simpl in *; rewrite Hw; [|by subst olds'].
    rewrite Hnext; [done|lia].
Qed.

(** ** [getInput] and its reference *)

Lemma tok_loop_line (pid : Z) (line : string) :
  (let '(tk, olds) := strtok line in tok_loop (String.length line + 1) pid tk olds tstate0)
  = parse_tokens pid (split_spaces line) tstate0.
Proof.
  pose proof (strtok_measure line) as Hm. pose proof (strtok_none_rest line) as Hn.
  rewrite (strtok_words line).
  destruct (strtok line) as [tk olds]; simpl in *. apply tok_loop_parse; [done|lia].
Qed.

Lemma getInput_unfold (pid : Z) (stdin : string) :
  getInput pid stdin = getInput_ref pid stdin.
Proof.
  unfold getInput, getInput_ref, read_line.
  destruct (fgets INPUTSIZE stdin) as [[raw rest]|]; [|done].
  destruct (remove_newline raw =s= "") eqn:E; [done|].
  rewrite <- tok_loop_line. destruct (strtok (remove_newline raw)) as [tk olds].
  by destruct (tok_loop _ _ _ _ _).
Qed.

(** C1: [getInput], with its [strtok] loop and the fuel it is
    given, behaves as the reference that runs the loop body over the list of
    space-separated words of the line. *)
Theorem getInput_ref_eq (pid : Z) (stdin : string) :
  getInput pid stdin = getInput_ref pid stdin.
Proof. apply getInput_unfold. Qed.

Lemma parse_tokens_not_fuel (pid : Z) (ts : list string) (st : tstate) :
  parse_tokens pid ts st ≠ LFuel.
Proof.
  revert st; induction ts as [ts IH] using (induction_ltof1 _ (@length string));
    unfold ltof in IH; intros st.
  destruct ts as [|t ts']; cbn [parse_tokens]; [done|].
  destruct (MAXARGS <=? t_i (set_check_bg false st)); [done|].
  case_streq; try (apply IH; simpl; lia).
  all: destruct ts' as [|p ts'']; [done|]; apply IH; simpl; lia.
Qed.

Lemma getInput_not_fuel (pid : Z) (stdin : string) : getInput pid stdin ≠ GotFuel.
Proof.
  rewrite getInput_unfold. unfold getInput_ref.
  destruct (read_line stdin) as [[line rest]|]; [|done].
  destruct (line =s= ""); [done|].
  pose proof (parse_tokens_not_fuel pid (split_spaces line) tstate0).
  by destruct (parse_tokens _ _ _).
Qed.

(** Everything [getInput] prints starts with the prompt. *)
Lemma getInput_prompt (pid : Z) (stdin : string) :
  match getInput pid stdin with
  | GotCmd _ out _ | GotEof out | GotCrash out => exists ms, out = PROMPT :: ms
  | GotFuel => True
  end.
Proof.
  unfold getInput. destruct (fgets INPUTSIZE stdin) as [[raw rest]|]; [|by eexists].
  destruct (remove_newline raw =s= ""); [by eexists|].
  destruct (strtok _) as [tk olds]. destruct (tok_loop _ _ _ _ _); by eexists.
Qed.

Lemma getInput_words (pid : Z) (stdin line rest : string) :
  read_line stdin = Some (line, rest) -> split_spaces line ≠ [] ->
  getInput pid stdin = result_of rest (parse_tokens pid (split_spaces line) tstate0).
Proof.
  intros Hr Hne. rewrite getInput_unfold. unfold getInput_ref. rewrite Hr.
  case_streq; [done|]. by destruct (line =s= "").
Qed.

(** ** Runs of plain arguments *)

Lemma cap_ok (st : tstate) (b : bool) :
  t_i st < MAXARGS -> (MAXARGS <=? t_i (set_check_bg b st)) = false.
Proof. intros H. apply Nat.leb_gt. exact H. Qed.

Lemma cap_hit (st : tstate) (b : bool) :
  MAXARGS <= t_i st -> (MAXARGS <=? t_i (set_check_bg b st)) = true.
Proof. intros H. apply Nat.leb_le. exact H. Qed.

Lemma parse_plain_app (pid : Z) (ts rest : list string) (st : tstate) :
  Forall (fun t => plain t = true) ts -> t_i st + length ts <= MAXARGS ->
  parse_tokens pid (ts ++ rest) st = parse_tokens pid rest (push_args pid ts st).
Proof.
  revert st; induction ts as [|t ts IH]; intros st Hp Hl; [done|].
  apply Forall_cons in Hp as [Ht Hts]. simpl app. cbn [parse_tokens].
  rewrite cap_ok by (simpl in Hl; lia).
  unfold plain in Ht. case_streq; simpl in Ht; try discriminate.
  apply IH; [done|simpl in *; lia].
Qed.

Lemma push_args_fields (pid : Z) (ts : list string) (st : tstate) :
  let st' := push_args pid ts st in
  t_i st' = t_i st + length ts /\ t_in st' = t_in st /\ t_out st' = t_out st /\
  t_msgs st' = t_msgs st /\ (ts ≠ [] -> t_check_bg st' = false).
Proof.
  revert st; induction ts as [|t ts IH]; intros st; simpl; [split; [lia|done]|].
  destruct (IH (push_arg pid st t)) as (Hi & Hin & Hout & Hm & Hb); simpl in *.
  split; [lia|]. do 3 (split; [done|]). intros _.
  destruct ts; [done|]. by apply Hb.
Qed.

Lemma push_args_data (pid : Z) (ts : list string) (st : tstate) (k : nat) :
  t_data (push_args pid ts st) !! k =
  if decide (t_i st <= k < t_i st + length ts)
  then expand pid <$> ts !! (k - t_i st) else t_data st !! k.
Proof.
  revert st; induction ts as [|t ts IH]; intros st; simpl.
  - case_decide; [lia|done].
  - rewrite IH. simpl. rewrite lookup_insert.
    repeat case_decide; subst; try lia; try done.
    + replace (k - t_i st) with (S (k - S (t_i st))) by lia. done.
    + by rewrite Nat.sub_diag.
Qed.

(** The state after a run of plain arguments from the start. *)
Lemma push_args_start (pid : Z) (ts : list string) :
  let st := push_args pid ts tstate0 in
  t_i st = length ts /\
  (forall j t, ts !! j = Some t -> t_data st !! j = Some (expand pid t)) /\
  (forall k, length ts <= k -> t_data st !! k = None).
Proof.
  simpl. destruct (push_args_fields pid ts tstate0) as [Hi _]. simpl in Hi.
  split; [done|]. split.
  - intros j t Hj. rewrite push_args_data. simpl.
    apply lookup_lt_Some in Hj as Hlt. case_decide; [|lia].
    by rewrite Nat.sub_0_r, Hj.
  - intros k Hk. rewrite push_args_data. simpl. case_decide; [lia|done].
Qed.

(** The loop only writes slots at or after the index it starts from. *)
Lemma parse_keep_below (pid : Z) (ts : list string) (st st' : tstate) :
  (parse_tokens pid ts st = LDone st' \/ parse_tokens pid ts st = LCrash st') ->
  forall k, k < t_i st -> t_data st' !! k = t_data st !! k.
Proof.
  revert st; induction ts as [ts IH] using (induction_ltof1 _ (@length string));
    unfold ltof in IH; intros st Hr k Hk.
  destruct ts as [|t ts']; cbn [parse_tokens] in Hr.
  { by destruct Hr as [[= <-]|?]. }
  destruct (MAXARGS <=? t_i (set_check_bg false st)).
  { by destruct Hr as [[= <-]|?]. }
  case_streq.
  - rewrite (IH ts' ltac:(simpl; lia) _ Hr k); [done|simpl; lia].
  - destruct ts' as [|p ts'']; [by destruct Hr as [[= <-]|?]|].
    rewrite (IH ts'' ltac:(simpl; lia) _ Hr k); [done|simpl; lia].
  - destruct ts' as [|p ts'']; [by destruct Hr as [?|[= <-]]|].
    rewrite (IH ts'' ltac:(simpl; lia) _ Hr k); [done|simpl; lia].
  - rewrite (IH ts' ltac:(simpl; lia) _ Hr k); [|simpl; lia].
    simpl. rewrite lookup_insert_ne; [done|lia].
Qed.

Lemma argv_go_spec (m i : nat) (d : gmap nat string) (l : list string) :
  (forall j t, l !! j = Some t -> d !! (i + j) = Some t) ->
  d !! (i + length l) = None -> length l < m ->
  argv_go m i d = l.
Proof.
  revert m i; induction l as [|t l IH]; intros [|m] i Hl Hn Hm; simpl in *; try lia.
  - rewrite Nat.add_0_r in Hn. by rewrite Hn.
  - pose proof (Hl 0 t eq_refl) as H0. rewrite Nat.add_0_r in H0. rewrite H0. f_equal. apply IH.
    + intros j t' Hj. rewrite Nat.add_succ_comm. by apply (Hl (S j)).
    + by rewrite Nat.add_succ_comm.
    + lia.
Qed.

(** The argument vector of an array whose first slots hold the expanded
    words [ts] and whose slot [length ts] is NULL. *)
Lemma argv_of_args (pid : Z) (ts : list string) (d : gmap nat string) :
  length ts < INPUTSIZE ->
  (forall j t, ts !! j = Some t -> d !! j = Some (expand pid t)) ->
  d !! length ts = None ->
  argv d = map (expand pid) ts.
Proof.
  intros Hl Hs Hn. apply argv_go_spec; rewrite ?length_map; [|done|done].
  intros j t Hj. apply list_lookup_fmap_Some in Hj as (t0 & -> & Hj). by apply Hs.
Qed.

(** A special token at index [t_i st] leaves the slots up to it as they
    are, that one included. *)
Lemma special_keeps (pid : Z) (t : string) (ts : list string) (st st' : tstate) :
  plain t = false -> t_i st < MAXARGS ->
  parse_tokens pid (t :: ts) st = LDone st' ->
  forall k, k <= t_i st -> t_data st' !! k = t_data st !! k.
Proof.
  intros Ht Hi Hr k Hk. cbn [parse_tokens] in Hr. rewrite cap_ok in Hr by done.
  unfold plain in Ht. case_streq; simpl in Ht; try discriminate.
  - rewrite (parse_keep_below pid ts _ st' (or_introl Hr)); [done|simpl; lia].
  - destruct ts as [|p ts'']; [by injection Hr as <-|].
    rewrite (parse_keep_below pid ts'' _ st' (or_introl Hr)); [done|simpl; lia].
  - destruct ts as [|p ts'']; [done|].
    rewrite (parse_keep_below pid ts'' _ st' (or_introl Hr)); [done|simpl; lia].
Qed.

Lemma result_of_cmd (rest rest' : string) (r : loop_result) (c : cmd) (out : list string) :
  result_of rest r = GotCmd c out rest' ->
  exists st, r = LDone st /\ c = cmd_of st /\ out = PROMPT :: t_msgs st /\ rest' = rest.
Proof. destruct r; simpl; intros H; inversion H; subst; eauto. Qed.

Lemma words_app_ne (ts : list string) (t : string) (ts' : list string) : ts ++ t :: ts' ≠ [].
Proof. by destruct ts. Qed.

Lemma argv_push_args (pid : Z) (ts : list string) :
  length ts < INPUTSIZE -> argv (t_data (push_args pid ts tstate0)) = map (expand pid) ts.
Proof.
  intros Hl. destruct (push_args_start pid ts) as (_ & Hs & Hn).
  apply argv_of_args; [done|done|by apply Hn].
Qed.

(** The words of a non-blank line: [getInput] runs the reference on them,
    and a first run of plain words fills the first slots. *)
Lemma getInput_args (pid : Z) (stdin line rest : string) (ts rest_ts : list string) :
  read_line stdin = Some (line, rest) -> split_spaces line = ts ++ rest_ts -> rest_ts ≠ [] ->
  Forall (fun w => plain w = true) ts -> length ts <= MAXARGS ->
  getInput pid stdin = result_of rest (parse_tokens pid rest_ts (push_args pid ts tstate0)).
Proof.
  intros Hr Hw Hne Hp Hl.
  rewrite (getInput_words pid stdin line rest Hr) by (rewrite Hw; by destruct ts, rest_ts).
  rewrite Hw, parse_plain_app; [done|done|bound_lia].
Qed.

(** The slots of the array after a run of plain words and a special token:
    the words expanded, then NULL. *)
Lemma getInput_special_slots (pid : Z) (stdin line rest rest' : string)
    (ts1 : list string) (t : string) (ts2 : list string) (c : cmd) (out : list string) :
  read_line stdin = Some (line, rest) ->
  split_spaces line = ts1 ++ t :: ts2 ->
  Forall (fun w => plain w = true) ts1 -> plain t = false -> length ts1 < MAXARGS ->
  getInput pid stdin = GotCmd c out rest' ->
  (forall j w, ts1 !! j = Some w -> data c !! j = Some (expand pid w)) /\
  data c !! length ts1 = None.
Proof.
  intros Hr Hw Hp Ht Hl Hg.
  rewrite (getInput_words pid stdin line rest Hr) in Hg by (rewrite Hw; apply words_app_ne).
  apply result_of_cmd in Hg as (st & Hst & -> & _ & _). rewrite Hw in Hst.
  rewrite parse_plain_app in Hst; [|done|bound_lia].
  destruct (push_args_start pid ts1) as (Hi & Hs & Hn).
  pose proof (special_keeps pid t ts2 (push_args pid ts1 tstate0) st Ht ltac:(bound_lia) Hst) as Hk.
  simpl. split.
  - intros j w Hj. rewrite Hk; [by apply Hs|]. apply lookup_lt_Some in Hj. lia.
  - rewrite Hk; [by apply Hn|lia].
Qed.

(** C6: The argument vector [execvp] receives ends at the
    first special token: when the words of the line are plain arguments [ts1]
    followed by [<], [>] or [&] and anything after it, the argument vector is
    [ts1] expanded, and every word after the special token is lost, the file
    of a redirection and the arguments that follow it included. *)
Theorem getInput_argv_special (pid : Z) (stdin line rest rest' : string)
    (ts1 : list string) (t : string) (ts2 : list string) (c : cmd) (out : list string) :
  read_line stdin = Some (line, rest) ->
  split_spaces line = ts1 ++ t :: ts2 ->
  Forall (fun w => plain w = true) ts1 -> plain t = false -> length ts1 < MAXARGS ->
  getInput pid stdin = GotCmd c out rest' ->
  argv (data c) = map (expand pid) ts1.
Proof.
  intros Hr Hw Hp Ht Hl Hg.
  destruct (getInput_special_slots pid stdin line rest rest' ts1 t ts2 c out Hr Hw Hp Ht Hl Hg)
    as [Hs Hn].
  apply argv_of_args; [bound_lia|done|done].
Qed.

Lemma getInput_argv_special_witness :
  argv (data (mkCmd {[2 := "-l"; 0 := "ls"]} "" "out" false
                     [subst_block 1234 "ls"; subst_block 1234 "-l"])) =
    map (expand 1234) ["ls"].
Proof.
  apply (getInput_argv_special 1234 ("ls > out -l" +:+ String NL "") "ls > out -l" ""
           "" ["ls"] ">" ["out"; "-l"] _ [PROMPT]);
    [reflexivity|reflexivity|repeat constructor|reflexivity|vm_compute; lia|vm_compute; reflexivity].
Defined.

(** C15: A line ending in [&] after plain words. *)
Theorem getInput_background (pid : Z) (stdin line rest : string) (ts : list string) :
  read_line stdin = Some (line, rest) -> split_spaces line = ts ++ ["&"] ->
  Forall (fun w => plain w = true) ts -> length ts < MAXARGS ->
  exists c, getInput pid stdin = GotCmd c [PROMPT] rest /\ background c = true /\
            argv (data c) = map (expand pid) ts.
Proof.
  intros Hr Hw Hp Hl.
  rewrite (getInput_args pid stdin line rest ts ["&"]) by (done || bound_lia).
  destruct (push_args_fields pid ts tstate0) as (Hi & _ & _ & Hm & _).
  cbn [parse_tokens]. rewrite cap_ok by bound_lia.
  eexists; split; [simpl; by rewrite Hm|]. split; [done|].
  apply argv_push_args. bound_lia.
Qed.

Lemma getInput_background_witness :
  exists c, getInput 1234 ("sleep 5 &" +:+ String NL "") = GotCmd c [PROMPT] "" /\
            background c = true /\ argv (data c) = map (expand 1234) ["sleep"; "5"].
Proof.
  apply (getInput_background 1234 _ "sleep 5 &" "" ["sleep"; "5"]);
    [reflexivity|reflexivity|repeat constructor|bound_lia].
Defined.

(** C14: Both redirections after plain words. *)
Theorem getInput_redirects (pid : Z) (stdin line rest a b : string) (ts : list string) :
  read_line stdin = Some (line, rest) -> split_spaces line = ts ++ ["<"; a; ">"; b] ->
  Forall (fun w => plain w = true) ts -> S (length ts) < MAXARGS ->
  exists c, getInput pid stdin = GotCmd c [PROMPT] rest /\
            input_file c = a /\ output_file c = b /\ background c = false /\
            argv (data c) = map (expand pid) ts.
Proof.
  intros Hr Hw Hp Hl.
  rewrite (getInput_args pid stdin line rest ts ["<"; a; ">"; b]) by (done || bound_lia).
  destruct (push_args_fields pid ts tstate0) as (Hi & Hin & Hout & Hm & _).
  cbn [parse_tokens]. rewrite cap_ok by bound_lia. cbn [parse_tokens String.eqb Ascii.eqb Bool.eqb].
  rewrite cap_ok by bound_lia. cbn [parse_tokens String.eqb Ascii.eqb Bool.eqb].
  eexists; split; [simpl; by rewrite Hm|]. do 3 (split; [done|]).
  apply argv_push_args. bound_lia.
Qed.

Lemma getInput_redirects_witness :
  exists c, getInput 1234 ("sort < in > out" +:+ String NL "") = GotCmd c [PROMPT] "" /\
            input_file c = "in" /\ output_file c = "out" /\ background c = false /\
            argv (data c) = map (expand 1234) ["sort"].
Proof.
  apply (getInput_redirects 1234 _ "sort < in > out" "" "in" "out" ["sort"]);
    [reflexivity|reflexivity|repeat constructor|bound_lia].
Defined.

(** C10: A [>] with no file after it: [strcpy(output_file, NULL)] crashes the
    shell. *)
Theorem getInput_dangling_out (pid : Z) (stdin line rest : string) (ts : list string) :
  read_line stdin = Some (line, rest) -> split_spaces line = ts ++ [">"] ->
  Forall (fun w => plain w = true) ts -> length ts < MAXARGS ->
  getInput pid stdin = GotCrash [PROMPT].
Proof.
  intros Hr Hw Hp Hl.
  rewrite (getInput_args pid stdin line rest ts [">"]) by (done || bound_lia).
  destruct (push_args_fields pid ts tstate0) as (Hi & _ & _ & Hm & _).
  cbn [parse_tokens]. rewrite cap_ok by bound_lia. simpl. by rewrite Hm.
Qed.

Lemma getInput_dangling_out_witness :
  getInput 1234 ("ls >" +:+ String NL "") = GotCrash [PROMPT].
Proof.
  apply (getInput_dangling_out 1234 _ "ls >" "" ["ls"]);
    [reflexivity|reflexivity|repeat constructor|bound_lia].
Defined.

(** C16: A [<] with no file after it is skipped: no input redirection, and the
    words before it are the arguments. *)
Theorem getInput_dangling_in (pid : Z) (stdin line rest : string) (ts : list string) :
  read_line stdin = Some (line, rest) -> split_spaces line = ts ++ ["<"] ->
  Forall (fun w => plain w = true) ts -> length ts < MAXARGS ->
  exists c, getInput pid stdin = GotCmd c [PROMPT] rest /\ input_file c = ""%string /\
            argv (data c) = map (expand pid) ts.
Proof.
  intros Hr Hw Hp Hl.
  rewrite (getInput_args pid stdin line rest ts ["<"]) by (done || bound_lia).
  destruct (push_args_fields pid ts tstate0) as (Hi & Hin & _ & Hm & _).
  cbn [parse_tokens]. rewrite cap_ok by bound_lia. cbn [parse_tokens String.eqb Ascii.eqb Bool.eqb].
  eexists; split; [simpl; by rewrite Hm|]. split; [done|].
  apply argv_push_args. bound_lia.
Qed.

Lemma getInput_dangling_in_witness :
  exists c, getInput 1234 ("cat <" +:+ String NL "") = GotCmd c [PROMPT] "" /\
            input_file c = ""%string /\ argv (data c) = map (expand 1234) ["cat"].
Proof.
  apply (getInput_dangling_in 1234 _ "cat <" "" ["cat"]);
    [reflexivity|reflexivity|repeat constructor|bound_lia].
Defined.

(** C11: The cap: a 513th word is never parsed. *)
Theorem getInput_cap (pid : Z) (stdin line rest : string) (ts : list string)
    (t : string) (more : list string) :
  read_line stdin = Some (line, rest) -> split_spaces line = ts ++ t :: more ->
  Forall (fun w => plain w = true) ts -> length ts = MAXARGS ->
  exists c, getInput pid stdin = GotCmd c [PROMPT; MAX_ARGS_MSG] rest /\
            background c = false /\ argv (data c) = map (expand pid) ts.
Proof.
  intros Hr Hw Hp Hl.
  rewrite (getInput_args pid stdin line rest ts (t :: more)) by (done || bound_lia).
  destruct (push_args_fields pid ts tstate0) as (Hi & _ & _ & Hm & _).
  cbn [parse_tokens]. rewrite cap_hit by bound_lia.
  eexists; split; [simpl; by rewrite Hm|]. split; [done|].
  apply argv_push_args. bound_lia.
Qed.

Lemma getInput_cap_witness :
  exists c, getInput 1234 (String.concat " " (repeat "a" 512 ++ ["&"]) +:+ String NL "")
            = GotCmd c [PROMPT; MAX_ARGS_MSG] "" /\
            background c = false /\ argv (data c) = map (expand 1234) (repeat "a" 512).
Proof.
  apply (getInput_cap 1234 _ (String.concat " " (repeat "a" 512 ++ ["&"])) ""
           (repeat "a" 512) "&" []);
    [vm_compute; reflexivity|vm_compute; reflexivity|apply Forall_forall; intros w Hw; apply list_elem_of_In, repeat_spec in Hw; by subst|
     by rewrite repeat_length].
Defined.

(** The background flag: it is set only by a last word [&]. *)
Lemma parse_bg_last (pid : Z) (ts : list string) (st st' : tstate) :
  parse_tokens pid ts st = LDone st' -> t_check_bg st' = true ->
  (ts = [] /\ t_check_bg st = true) \/ last ts = Some "&"%string.
Proof.
  revert st; induction ts as [ts IH] using (induction_ltof1 _ (@length string));
    unfold ltof in IH; intros st Hr Hb.
  destruct ts as [|t ts']; cbn [parse_tokens] in Hr; [injection Hr as ->; by left|].
  right. destruct (MAXARGS <=? t_i (set_check_bg false st)); [by injection Hr as <-|].
  case_streq.
  - destruct (IH ts' ltac:(simpl; lia) _ Hr Hb) as [[-> _]|Hl]; [done|].
    destruct ts'; [done|exact Hl].
  - destruct ts' as [|p ts'']; [by injection Hr as <-|].
    destruct (IH ts'' ltac:(simpl; lia) _ Hr Hb) as [[-> Hb']|Hl]; [done|].
    destruct ts''; [done|exact Hl].
  - destruct ts' as [|p ts'']; [done|].
    destruct (IH ts'' ltac:(simpl; lia) _ Hr Hb) as [[-> Hb']|Hl]; [done|].
    destruct ts''; [done|exact Hl].
  - destruct (IH ts' ltac:(simpl; lia) _ Hr Hb) as [[-> Hb']|Hl]; [done|].
    destruct ts'; [done|exact Hl].
Qed.

(** C17: The background flag is set only by a final [&]: when [getInput]
    returns a command in the background, the last word of the line is [&];
    [sleep & 5] runs in the foreground. *)
Theorem getInput_background_last (pid : Z) (stdin line rest rest' : string) (c : cmd)
    (out : list string) :
  read_line stdin = Some (line, rest) -> getInput pid stdin = GotCmd c out rest' ->
  background c = true -> last (split_spaces line) = Some "&"%string.
Proof.
  intros Hr Hg Hb. rewrite getInput_unfold in Hg. unfold getInput_ref in Hg. rewrite Hr in Hg.
  destruct (line =s= ""); [by injection Hg as <-|].
  apply result_of_cmd in Hg as (st & Hst & -> & _ & _).
  by destruct (parse_bg_last pid _ _ _ Hst Hb) as [[_ ?]|?].
Qed.

Lemma getInput_background_last_witness :
  last (split_spaces "sleep 5 &") = Some "&"%string.
Proof.
  apply (getInput_background_last 1234 ("sleep 5 &" +:+ String NL "") "sleep 5 &" "" ""
           (mkCmd {[1 := "5"; 0 := "sleep"]} "" "" true
              [subst_block 1234 "sleep"; subst_block 1234 "5"]) [PROMPT]);
    [reflexivity|vm_compute; reflexivity|reflexivity].
Defined.

(** C33: A line longer than the buffer: when the first [INPUTSIZE - 1] bytes
    of the input hold no newline, [fgets] stops after them, and [getInput]
    works on those bytes alone; the rest of the line is left in the input,
    where the next iteration reads it as a command of its own. *)
Theorem getInput_long_line (pid : Z) (s t : string) :
  String.length s = INPUTSIZE - 1 -> NL ∉ String.list_ascii_of_string s -> nul_free s ->
  read_line (s +:+ t) = Some (s, t) /\
  (forall c out rest, getInput pid (s +:+ t) = GotCmd c out rest -> rest = t).
Proof.
  intros Hl Hnl Hnul.
  assert (Hr : read_line (s +:+ t) = Some (s, t)).
  { unfold read_line, fgets. destruct s as [|a s']; [discriminate|].
    rewrite string_app_cons. cbn -[fgets_go INPUTSIZE]. rewrite <- string_app_cons.
    rewrite fgets_go_long by done. by rewrite remove_newline_clean. }
  split; [done|]. intros c out rest. rewrite getInput_unfold. unfold getInput_ref. rewrite Hr.
  destruct (s =s= ""); [by intros [= _ _ <-]|].
  intros Hg. by apply result_of_cmd in Hg as (? & _ & _ & _ & ->).
Qed.

Lemma getInput_long_line_witness :
  let s := String.string_of_list_ascii (repeat "a"%char 2047) in
  (String.length s = INPUTSIZE - 1 /\ NL ∉ String.list_ascii_of_string s /\ nul_free s) /\
  read_line (s +:+ "ls
") = Some (s, "ls
"%string) /\
  (forall c out rest, getInput 1234 (s +:+ "ls
") = GotCmd c out rest -> rest = "ls
"%string).
Proof.
  intros s.
  assert (H1 : String.length s = INPUTSIZE - 1) by (vm_compute; reflexivity).
  assert (H2 : NL ∉ String.list_ascii_of_string s)
    by (apply (bool_decide_eq_true_1 _); vm_compute; reflexivity).
  assert (H3 : nul_free s) by (apply (bool_decide_eq_true_1 _); vm_compute; reflexivity).
  split; [split_and!; assumption|].
  exact (getInput_long_line 1234 s "ls
" H1 H2 H3).
Defined.

(** [getInput] reads one line: what follows the newline is only handed
    back as the rest of the input. *)
Lemma getInput_line_indep (pid : Z) (l r : string) :
  NL ∉ String.list_ascii_of_string l -> String.length l < INPUTSIZE - 1 ->
  getInput pid (l +:+ String NL r) =
  match getInput pid (l +:+ String NL "") with
  | GotCmd c out _ => GotCmd c out r
  | g => g
  end.
Proof.
  intros Hnl Hl.
  assert (Hr : forall t, read_line (l +:+ String NL t) = Some (remove_newline (l +:+ String NL ""), t)).
  { intros t. unfold read_line.
    assert (Hf : fgets INPUTSIZE (l +:+ String NL t) =
                 Some (fgets_go (INPUTSIZE - 1) (l +:+ String NL t))) by (destruct l; reflexivity).
    by rewrite Hf, fgets_go_line. }
  rewrite !getInput_unfold. unfold getInput_ref. rewrite !Hr.
  destruct (_ =s= ""); [done|]. by destruct (parse_tokens _ _ _).
Qed.

(** ** The type of the command *)

Lemma word_ok_empty : word_ok "".
Proof. split; [unfold nul_free|]; simpl; set_solver. Qed.

Lemma nul_free_Forall (s : string) :
  nul_free s <-> Forall (fun ch => ch <> NUL) (String.list_ascii_of_string s).
Proof. unfold nul_free. rewrite Forall_forall. naive_solver. Qed.

(** The words of the line [getInput] works on. *)
Lemma read_line_words (stdin line rest : string) :
  read_line stdin = Some (line, rest) -> Forall word_ok (split_spaces line).
Proof.
  unfold read_line. destruct (fgets INPUTSIZE stdin) as [[raw r]|]; [|done].
  intros [= <- _]. pose proof (cstr_nul_free (map nl_to_nul (String.list_ascii_of_string raw ++ [NUL]))) as Hn.
  apply nul_free_Forall, split_spaces_chars in Hn.
  eapply Forall_impl; [exact Hn|]. intros w [Hw Hs]. split; [by apply nul_free_Forall|done].
Qed.

Lemma slots_below_mono (d : gmap nat string) (i j : nat) :
  i <= j -> (forall k a, d !! k = Some a -> k < i /\ nul_free a) ->
  forall k a, d !! k = Some a -> k < j /\ nul_free a.
Proof. intros Hij Hd k a Ha. destruct (Hd k a Ha). split; [lia|done]. Qed.

Lemma tst_wf_0 : tst_wf tstate0.
Proof. unfold tst_wf; simpl. split_and!; [lia|set_solver|apply word_ok_empty|apply word_ok_empty]. Qed.

(** ** Invariants of the loop

    An invariant of the loop variables that each kind of iteration keeps
    (the [&], [<] and [>] branches, the argument branch, and the [break] at
    the cap) holds after the whole loop, whether it ends or crashes. *)
Section parse_inv.
Context (pid : Z) (P : tstate -> Prop).
Hypothesis P_bg : forall st b, P st -> P (set_check_bg b st).
Hypothesis P_print : forall st m, P st -> P (print m st).
Hypothesis P_skip : forall st, P st -> t_i st < MAXARGS -> P (incr_i st).
Hypothesis P_in : forall st p, word_ok p -> P st -> P (set_in p st).
Hypothesis P_out : forall st p, word_ok p -> P st -> P (set_out p st).
Hypothesis P_arg : forall st t, word_ok t -> P st -> t_i st < MAXARGS ->
  P (incr_i (store_arg (subst_block pid t) st)).

Lemma parse_tokens_inv (ts : list string) (st st' : tstate) :
  Forall word_ok ts -> P st ->
  (parse_tokens pid ts st = LDone st' \/ parse_tokens pid ts st = LCrash st') -> P st'.
Proof using P_arg P_bg P_in P_out P_print P_skip.
  revert st; induction ts as [ts IH] using (induction_ltof1 _ (@length string));
    unfold ltof in IH; intros st Hts Hst Hr.
  destruct ts as [|t ts']; cbn [parse_tokens] in Hr.
  { by destruct Hr as [[= <-]|?]. }
  apply Forall_cons in Hts as [Ht Hts].
  pose proof (P_bg st false Hst) as H0.
  destruct (MAXARGS <=? t_i (set_check_bg false st)) eqn:Hc.
  { destruct Hr as [[= <-]|?]; [by apply P_print|done]. }
  apply Nat.leb_gt in Hc. case_streq.
  - refine (IH ts' ltac:(simpl; lia) _ Hts _ Hr). apply P_skip; [by apply P_bg|done].
  - destruct ts' as [|p ts'']; [destruct Hr as [[= <-]|?]; [by apply P_skip|done]|].
    apply Forall_cons in Hts as [Hp Hts].
    refine (IH ts'' ltac:(simpl; lia) _ Hts _ Hr). apply P_skip; [by apply P_in|done].
  - destruct ts' as [|p ts'']; [by destruct Hr as [?|[= <-]]|].
    apply Forall_cons in Hts as [Hp Hts].
    refine (IH ts'' ltac:(simpl; lia) _ Hts _ Hr). apply P_skip; [by apply P_out|done].
  - refine (IH ts' ltac:(simpl; lia) _ Hts _ Hr). by apply P_arg.
Qed.
End parse_inv.

Lemma tst_wf_skip (st : tstate) : tst_wf st -> t_i st < MAXARGS -> tst_wf (incr_i st).
Proof.
  intros (Hi & Hd & Hin & Hout) Hlt. unfold tst_wf; simpl. split_and!; try done; try lia.
  eapply slots_below_mono; [|exact Hd]; lia.
Qed.

Lemma tst_wf_arg (pid : Z) (st : tstate) (t : string) :
  tst_wf st -> t_i st < MAXARGS -> tst_wf (incr_i (store_arg (subst_block pid t) st)).
Proof.
  intros (Hi & Hd & Hin & Hout) Hlt. unfold tst_wf; simpl. split_and!; try done; try lia.
  intros k a. rewrite lookup_insert_Some.
  intros [[<- <-]|[Hk Ha]]; [split; [lia|apply expand_nul_free]|].
  destruct (Hd k a Ha). split; [lia|done].
Qed.

Lemma parse_tokens_wf (pid : Z) (ts : list string) (st st' : tstate) :
  Forall word_ok ts -> tst_wf st ->
  (parse_tokens pid ts st = LDone st' \/ parse_tokens pid ts st = LCrash st') -> tst_wf st'.
Proof.
  apply parse_tokens_inv; [done|done|apply tst_wf_skip| | |intros s0 t _; apply tst_wf_arg].
  all: intros s0 p Hp (? & ? & ? & ?); unfold tst_wf; simpl; by split_and!.
Qed.

(** A slot at or past [i] is NULL. *)
Lemma tst_wf_none (st : tstate) (k : nat) : tst_wf st -> t_i st <= k -> t_data st !! k = None.
Proof.
  intros (_ & Hd & _) Hk. destruct (t_data st !! k) as [a|] eqn:Ha; [|done].
  destruct (Hd k a Ha). lia.
Qed.

Lemma tst_heap_skip (pid : Z) (st : tstate) :
  tst_wf st -> tst_heap pid st -> tst_heap pid (incr_i st).
Proof.
  intros Hw [Hb Hm]. split; [done|]. cbn [incr_i t_i t_data t_blocks].
  rewrite omap_seq_S, tst_wf_none, app_nil_r by done. exact Hm.
Qed.

Lemma tst_heap_arg (pid : Z) (st : tstate) (t : string) :
  tst_wf st -> word_ok t -> tst_heap pid st ->
  tst_heap pid (incr_i (store_arg (subst_block pid t) st)).
Proof.
  intros Hw Ht [Hb Hm]. split; cbn [incr_i store_arg t_i t_data t_blocks].
  - apply Forall_app_2; [done|]. apply Forall_singleton. by exists t.
  - rewrite map_app, omap_seq_S, lookup_insert, Hm. f_equal; [|by rewrite decide_True].
    apply omap_seq_ext. intros k Hk. rewrite lookup_insert_ne; [done|lia].
Qed.

(** Heap ownership along the loop, with the type it relies on. *)
Lemma parse_tokens_heap (pid : Z) (ts : list string) (st st' : tstate) :
  Forall word_ok ts -> tst_wf st /\ tst_heap pid st ->
  (parse_tokens pid ts st = LDone st' \/ parse_tokens pid ts st = LCrash st') ->
  tst_wf st' /\ tst_heap pid st'.
Proof.
  apply (parse_tokens_inv pid (fun s0 => tst_wf s0 /\ tst_heap pid s0)); [done|done| | | |].
  - intros s0 [Hw Hh] Hlt. split; [by apply tst_wf_skip|by apply tst_heap_skip].
  - intros s0 p Hp [(? & ? & ? & ?) Hh]. unfold tst_wf; simpl. by split_and!.
  - intros s0 p Hp [(? & ? & ? & ?) Hh]. unfold tst_wf; simpl. by split_and!.
  - intros s0 t Ht [Hw Hh] Hlt. split; [by apply tst_wf_arg|by apply tst_heap_arg].
Qed.

(** C34: Type of the command: whatever the input, the command [getInput]
    hands to [main] stores its arguments as C strings in the first 512 of the
    2048 slots of [input] (so [data[i] = strdup(token)] never writes out of
    the array), and its two file names are C strings without spaces. *)
Theorem getInput_wf (pid : Z) (stdin rest : string) (c : cmd) (out : list string) :
  getInput pid stdin = GotCmd c out rest -> cmd_wf c.
Proof.
  rewrite getInput_unfold. unfold getInput_ref.
  destruct (read_line stdin) as [[line r]|] eqn:Hr; [|done].
  destruct (line =s= "").
  { intros [= <- _ _]. split_and!; simpl; [|apply word_ok_empty|apply word_ok_empty].
    intros k a. rewrite lookup_singleton_Some. intros [<- <-]. split; [bound_lia|].
    unfold nul_free; simpl; set_solver. }
  intros Hg. apply result_of_cmd in Hg as (st & Hst & -> & _ & _).
  assert (Hw : tst_wf st).
  { apply (parse_tokens_wf pid (split_spaces line) tstate0);
      [by eapply read_line_words|apply tst_wf_0|by left]. }
  destruct Hw as (Hi & Hd & Hin & Hout). split_and!; [|done|done].
  eapply slots_below_mono; [|exact Hd]; done.
Qed.

Lemma getInput_wf_witness :
  getInput 1234 "ls -l$$ > out
" = GotCmd (mkCmd {[0 := "ls"; 1 := "-l1234"]} "" "out" false
                  [subst_block 1234 "ls"; subst_block 1234 "-l$$"]) [PROMPT] "" /\
  cmd_wf (mkCmd {[0 := "ls"; 1 := "-l1234"]} "" "out" false
                  [subst_block 1234 "ls"; subst_block 1234 "-l$$"]).
Proof.
  assert (Hg : getInput 1234 "ls -l$$ > out
" = GotCmd (mkCmd {[0 := "ls"; 1 := "-l1234"]} "" "out" false
                  [subst_block 1234 "ls"; subst_block 1234 "-l$$"]) [PROMPT] "")
    by (vm_compute; reflexivity).
  split; [exact Hg|]. exact (getInput_wf 1234 _ _ _ _ Hg).
Defined.

(** C29: Heap ownership: whatever the input, every block [getInput]
    allocates is the [strdup] copy of a word of the line (after its [$$]
    loop), and the non-NULL slots of [data] point to exactly these blocks,
    one slot per block, in the order they were allocated; slots skipped by
    [<], [>] and [&] stay NULL.  When [main] clears [input] with [memset]
    at the next iteration these pointers are the only ones to the blocks. *)
Theorem getInput_heap (pid : Z) (stdin rest : string) (c : cmd) (out : list string) :
  getInput pid stdin = GotCmd c out rest -> heap_ok pid c.
Proof.
  rewrite getInput_unfold. unfold getInput_ref.
  destruct (read_line stdin) as [[line r]|] eqn:Hr; [|done].
  destruct (line =s= "").
  { intros [= <- _ _]. split; cbn [data blocks].
    - apply Forall_singleton. exists ""%string. split; [apply word_ok_empty|].
      unfold strdup_block, subst_block. rewrite subst_buffer_spec; [done|apply nul_free_bool; reflexivity].
    - unfold slot_values. rewrite (omap_seq_below _ 1); [done|bound_lia|].
      intros k Hk. rewrite lookup_singleton_ne; [done|lia]. }
  intros Hg. apply result_of_cmd in Hg as (st & Hst & -> & _ & _).
  destruct (parse_tokens_heap pid (split_spaces line) tstate0 st) as [Hw [Hb Hm]];
    [by eapply read_line_words|split; [apply tst_wf_0|split; [constructor|done]]|by left|].
  split; [done|]. unfold slot_values. cbn [cmd_of data blocks]. rewrite Hm.
  symmetry. apply omap_seq_below; [destruct Hw; bound_lia|]. intros k Hk. by apply tst_wf_none.
Qed.

Lemma getInput_heap_witness :
  getInput 1234 "cat a$$ < in b
" = GotCmd (mkCmd {[0 := "cat"; 1 := "a1234"; 3 := "b"]} "in" "" false
                  [subst_block 1234 "cat"; subst_block 1234 "a$$"; subst_block 1234 "b"]) [PROMPT] "" /\
  heap_ok 1234 (mkCmd {[0 := "cat"; 1 := "a1234"; 3 := "b"]} "in" "" false
                  [subst_block 1234 "cat"; subst_block 1234 "a$$"; subst_block 1234 "b"]).
Proof.
  assert (Hg : getInput 1234 "cat a$$ < in b
" = GotCmd (mkCmd {[0 := "cat"; 1 := "a1234"; 3 := "b"]} "in" "" false
                  [subst_block 1234 "cat"; subst_block 1234 "a$$"; subst_block 1234 "b"]) [PROMPT] "")
    by (vm_compute; reflexivity).
  split; [exact Hg|]. exact (getInput_heap 1234 _ _ _ _ Hg).
Defined.

End Tokenizer.
