(* ===== verification/Launcher.v ===== *)
(** * The child side of [execInput]

    Lines 178-217 of [src/driver.c]: in the child of [fork], a non-empty
    [input_file] is opened read-only and [dup2]ed onto descriptor 1, a
    non-empty [output_file] is opened for appending (created if absent) and
    [dup2]ed onto descriptor 1 too, then [execvp] replaces the image.  Each
    failure prints a diagnostic with [perror] (the message of the code, then
    the text of [errno]) to standard error and exits, with 1 for the
    redirections and 2 for [execvp].  [child] returns how the child ends:
    [ChildExit] with its exit code, what it printed and the files it leaves,
    or [ChildExec] with the argument vector, the descriptor table the new
    image starts with and the files.  The descriptor opened for a
    redirection is never closed. *)

From S2P Require Import Prelude CStr WaitStatus Os Tokenizer.

Module Launcher.
Import WaitStatus Os Tokenizer.

Inductive child_outcome :=
| ChildExit (code : Z) (err : list string) (fs : fsys)
| ChildExec (args : list string) (fds : fdtable) (fs : fsys).

Definition MSG_IN_OPEN : string := "Input file failed to open()." +:+ String NL "".
Definition MSG_IN_DUP : string := "Unable to copy input file." +:+ String NL "".
Definition MSG_OUT_OPEN : string := "Output file failed to open()." +:+ String NL "".
Definition MSG_OUT_DUP : string := "Unable to copy output file." +:+ String NL "".
Definition MSG_EXEC : string := "The specified file or directory does not exist." +:+ String NL "".

(** Lines 180-193: the input redirection, onto descriptor 1. *)
Definition redirect_in (fs : fsys) (cwd : string) (c : cmd) (t : fdtable)
    : fdtable + child_outcome :=
  if negb (input_file c =s= "") then
    match open_rdonly fs cwd t (input_file c) with
    | inr e => inr (ChildExit 1 [perror MSG_IN_OPEN e] fs)
    | inl (fd, t1) =>
        match dup2 t1 fd 1 with
        | inr e => inr (ChildExit 1 [perror MSG_IN_DUP e] fs)
        | inl t2 => inl t2
        end
    end
  else inl t.

(** Lines 196-209: the output redirection, onto descriptor 1. *)
Definition redirect_out (fs : fsys) (cwd : string) (c : cmd) (t : fdtable)
    : (fdtable * fsys) + child_outcome :=
  if negb (output_file c =s= "") then
    match open_append fs cwd t (output_file c) with
    | inr e => inr (ChildExit 1 [perror MSG_OUT_OPEN e] fs)
    | inl (fd, t1, fs1) =>
        match dup2 t1 fd 1 with
        | inr e => inr (ChildExit 1 [perror MSG_OUT_DUP e] fs1)
        | inl t2 => inl (t2, fs1)
        end
    end
  else inl (t, fs).

(** Lines 212-216: [execvp(data[0], data)]; a program that is not found
    sets [ENOENT].  [main] never calls [execInput] with [data[0]] NULL, so
    the empty vector does not occur. *)
Definition exec_argv `{Env} (fs : fsys) (c : cmd) (t : fdtable) : child_outcome :=
  let a := argv (data c) in
  match a with
  | a0 :: _ => if env_found a0 then ChildExec a t fs else ChildExit 2 [perror MSG_EXEC ENOENT] fs
  | [] => ChildExit 2 [perror MSG_EXEC ENOENT] fs
  end.

(** The child, from the descriptors it inherits. *)
Definition child `{Env} (fs : fsys) (cwd : string) (c : cmd) : child_outcome :=
  match redirect_in fs cwd c fds0 with
  | inr o => o
  | inl t1 =>
      match redirect_out fs cwd c t1 with
      | inr o => o
      | inl (t2, fs2) => exec_argv fs2 c t2
      end
  end.

(** The status [waitpid] reports for the child, and the files after it. *)
Definition child_status `{Env} (o : child_outcome) : fsys * Z :=
  match o with
  | ChildExit code _ fs => (fs, exited code)
  | ChildExec a t fs => env_run a t fs
  end.

(** What the child wrote to standard error before it exited: the [perror]
    diagnostics of the shell's code (what the program itself writes after
    [execvp] is not modelled). *)
Definition child_err (o : child_outcome) : list string :=
  match o with
  | ChildExit _ err _ => err
  | ChildExec _ _ _ => []
  end.

(** The files and the command of the witnesses. *)
Definition demo_fs : fsys := mkFs {["/tmp/in" := "hello"]} {["/tmp"; "/home"; "/home/u"]}.

(** ** How each redirection ends *)

Lemma redirect_in_cases (fs : fsys) (cwd : string) (c : cmd) (t : fdtable) :
  (input_file c = ""%string /\ redirect_in fs cwd c t = inl t) \/
  (exists e, input_file c ≠ ""%string /\ open_rdonly fs cwd t (input_file c) = inr e /\
     redirect_in fs cwd c t = inr (ChildExit 1 [perror MSG_IN_OPEN e] fs)) \/
  (exists q, input_file c ≠ ""%string /\ resolve cwd (input_file c) = q /\
     open_rdonly fs cwd t (input_file c) = inl (lowest_free t, <[lowest_free t := RdFile q]> t) /\
     redirect_in fs cwd c t =
       inl (<[1%Z := RdFile q]> (<[lowest_free t := RdFile q]> t))).
Proof.
  unfold redirect_in. case_streq; simpl; [by left|right].
  unfold open_rdonly.
  case_decide; [right; eexists; split_and!; [done|done|done|]; by rewrite dup2_inserted|].
  left. by eexists.
Qed.

Lemma redirect_out_cases (fs : fsys) (cwd : string) (c : cmd) (t : fdtable) :
  (output_file c = ""%string /\ redirect_out fs cwd c t = inl (t, fs)) \/
  (exists e, output_file c ≠ ""%string /\ open_append fs cwd t (output_file c) = inr e /\
     redirect_out fs cwd c t = inr (ChildExit 1 [perror MSG_OUT_OPEN e] fs)) \/
  (exists q fs', output_file c ≠ ""%string /\ resolve cwd (output_file c) = q /\
     (q ∉ fs_dirs fs) /\ (q ∈ dom (fs_files fs')) /\ fs_dirs fs' = fs_dirs fs /\
     (forall r, r ≠ q -> fs_files fs' !! r = fs_files fs !! r) /\
     redirect_out fs cwd c t =
       inl (<[1%Z := AppFile q]> (<[lowest_free t := AppFile q]> t), fs')).
Proof.
  unfold redirect_out. case_streq; simpl; [by left|right].
  destruct (open_append fs cwd t (output_file c)) as [[[fd t1] fs1]|e] eqn:E;
    [right|left; by eexists].
  unfold open_append in E. set (q := resolve cwd (output_file c)) in E.
  case_decide as Hd; [done|].
  destruct (fs_files fs !! q) as [v|] eqn:Ef; [|destruct (path_error fs q); [done|]];
    injection E as Hfd Ht1 Hfs1; subst fd t1 fs1; rewrite dup2_inserted.
  - exists q, fs; split_and!; try done. apply elem_of_dom. by eexists.
  - exists q, (mkFs (<[q := ""%string]> (fs_files fs)) (fs_dirs fs)); split_and!; try done.
    + apply elem_of_dom. simpl. by rewrite lookup_insert_eq.
    + intros r Hr. simpl. by rewrite lookup_insert_ne.
Qed.

(** Opening never reuses descriptor 0 while it is open. *)
Lemma lowest_free_ne (t : fdtable) (k : Z) (o : ofile) :
  t !! k = Some o -> lowest_free t ≠ k.
Proof. intros Hk E. pose proof (lowest_free_spec t) as H. rewrite E in H. congruence. Qed.

Lemma redirect_keeps0 (t : fdtable) (o1 o2 : ofile) :
  t !! 0%Z = Some Tty -> <[1%Z := o1]> (<[lowest_free t := o2]> t) !! 0%Z = Some Tty.
Proof.
  intros H0. rewrite lookup_insert_ne by done.
  rewrite lookup_insert_ne; [done|]. apply (lowest_free_ne t 0 Tty H0).
Qed.

(** ** Properties *)

(** C5: No redirection ever reaches descriptor 0:
    whatever [<] asks for, the program [execvp] starts reads the shell's
    terminal. *)
Theorem child_stdin_untouched `{Env} (fs fs' : fsys) (cwd : string) (c : cmd)
    (a : list string) (t : fdtable) :
  child fs cwd c = ChildExec a t fs' -> t !! 0%Z = Some Tty.
Proof.
  unfold child. intros Hc.
  destruct (redirect_in_cases fs cwd c fds0) as [[_ E]|[(e & _ & _ & E)|(q & _ & _ & _ & E)]];
    rewrite E in Hc; [| done |].
  all: match type of Hc with
       | context [redirect_out ?fs0 ?cwd0 ?c0 ?t1] =>
           destruct (redirect_out_cases fs0 cwd0 c0 t1)
             as [[_ E2]|[(e2 & _ & _ & E2)|(q2 & fs2 & _ & _ & _ & _ & _ & _ & E2)]];
           rewrite E2 in Hc; [| done |]
       end.
  all: unfold exec_argv in Hc; destruct (argv (data c)) as [|a0 ?]; [done|].
  all: destruct (env_found a0); [|done]; injection Hc as <- <- <-.
  all: repeat apply redirect_keeps0; reflexivity.
Qed.

Lemma child_stdin_untouched_witness :
  @child env_demo demo_fs "/tmp" (mkCmd {[0 := "cat"]} "in" "" false [])
    = ChildExec ["cat"] (<[1%Z := RdFile "/tmp/in"]> (<[3%Z := RdFile "/tmp/in"]> fds0)) demo_fs /\
  (<[1%Z := RdFile "/tmp/in"]> (<[3%Z := RdFile "/tmp/in"]> fds0) : fdtable) !! 0%Z = Some Tty.
Proof.
  assert (E : @child env_demo demo_fs "/tmp" (mkCmd {[0 := "cat"]} "in" "" false [])
    = ChildExec ["cat"] (<[1%Z := RdFile "/tmp/in"]> (<[3%Z := RdFile "/tmp/in"]> fds0)) demo_fs)
    by (vm_compute; reflexivity).
  split; [exact E|]. exact (@child_stdin_untouched env_demo _ _ _ _ _ _ E).
Defined.

(** C20: [< file] alone: the file is opened read-only on
    descriptor 3 and [dup2]ed onto descriptor 1, so the program starts with
    the terminal as its input, the input file as its output, and descriptor
    3 still open. *)
Theorem child_input_redirect `{Env} (fs : fsys) (cwd : string) (c : cmd)
    (a0 : string) (args : list string) :
  input_file c ≠ ""%string -> output_file c = ""%string ->
  resolve cwd (input_file c) ∈ dom (fs_files fs) ->
  argv (data c) = a0 :: args -> env_found a0 = true ->
  child fs cwd c =
  ChildExec (a0 :: args)
    (<[1%Z := RdFile (resolve cwd (input_file c))]>
       (<[3%Z := RdFile (resolve cwd (input_file c))]> fds0)) fs.
Proof.
  intros Hin Hout Hf Ha Hfound. unfold child, redirect_in, redirect_out, open_rdonly.
  rewrite (streq_ne _ _ Hin). simpl. rewrite decide_True by (by left).
  rewrite dup2_inserted, lowest_free_fds0. simpl.
  rewrite Hout. simpl. unfold exec_argv. by rewrite Ha, Hfound.
Qed.

Lemma child_input_redirect_witness :
  @child env_demo demo_fs "/tmp" (mkCmd {[0 := "cat"]} "in" "" false []) =
  ChildExec ["cat"] (<[1%Z := RdFile "/tmp/in"]> (<[3%Z := RdFile "/tmp/in"]> fds0)) demo_fs.
Proof.
  apply (@child_input_redirect env_demo demo_fs "/tmp" (mkCmd {[0 := "cat"]} "in" "" false [])
           "cat" []); [done|done|vm_compute; set_solver|vm_compute; reflexivity|reflexivity].
Defined.

(** C21: A child that does not reach its program exits with 1 and
    one diagnostic after a failed [open] of a redirection file, and with 2
    and one diagnostic after a failed [execvp]; the [dup2] failure paths of
    lines 189-192 and 205-208 are never taken. *)
Theorem child_exit_codes `{Env} (fs fs' : fsys) (cwd : string) (c : cmd)
    (code : Z) (err : list string) :
  child fs cwd c = ChildExit code err fs' ->
  (code = 1%Z /\ exists e, err = [perror MSG_IN_OPEN e] \/ err = [perror MSG_OUT_OPEN e]) \/
  (code = 2%Z /\ exists e, err = [perror MSG_EXEC e]).
Proof.
  unfold child. intros Hc.
  destruct (redirect_in_cases fs cwd c fds0) as [[_ E]|[(e & _ & _ & E)|(q & _ & _ & _ & E)]];
    rewrite E in Hc; [| injection Hc as <- <- <-; left; split; [done|by exists e; left] |].
  all: match type of Hc with
       | context [redirect_out ?fs0 ?cwd0 ?c0 ?t1] =>
           destruct (redirect_out_cases fs0 cwd0 c0 t1)
             as [[_ E2]|[(e2 & _ & _ & E2)|(q2 & fs2 & _ & _ & _ & _ & _ & _ & E2)]];
           rewrite E2 in Hc; [| injection Hc as <- <- <-; left; split; [done|by exists e2; right] |]
       end.
  all: unfold exec_argv in Hc; destruct (argv (data c)) as [|a0 ?];
       [injection Hc as <- <- <-; right; split; [done|by eexists]|].
  all: destruct (env_found a0); [done|injection Hc as <- <- <-; right; split; [done|by eexists]].
Qed.

Lemma child_exit_codes_witness :
  (1%Z = 1%Z /\ exists e, [perror MSG_OUT_OPEN ENOENT] = [perror MSG_IN_OPEN e] \/
                          [perror MSG_OUT_OPEN ENOENT] = [perror MSG_OUT_OPEN e]) \/
  (1%Z = 2%Z /\ exists e, [perror MSG_OUT_OPEN ENOENT] = [perror MSG_EXEC e]).
Proof.
  apply (@child_exit_codes env_demo demo_fs demo_fs "/tmp"
           (mkCmd {[0 := "ls"]} "" "/nodir/x" false [])).
  vm_compute. reflexivity.
Defined.

(** C22: The input file is opened first: when it cannot
    be opened the child exits with 1 before touching the output file, which
    is not created even when the command asks for it. *)
Theorem child_input_fail_first `{Env} (fs : fsys) (cwd : string) (c : cmd) (e : errno) :
  input_file c ≠ ""%string -> open_rdonly fs cwd fds0 (input_file c) = inr e ->
  child fs cwd c = ChildExit 1 [perror MSG_IN_OPEN e] fs.
Proof.
  intros Hin Hopen. unfold child, redirect_in. rewrite (streq_ne _ _ Hin). simpl. by rewrite Hopen.
Qed.

Lemma child_input_fail_first_witness :
  @child env_demo demo_fs "/tmp" (mkCmd {[0 := "cat"]} "missing" "out" false [])
  = ChildExit 1 [perror MSG_IN_OPEN ENOENT] demo_fs.
Proof.
  apply (@child_input_fail_first env_demo); [done|vm_compute; reflexivity].
Defined.

(** C23: [> file] without [<]: when the directories on the way to the
    file exist, the file is created if it was absent, and it exists
    afterwards whether the program is found (the program then writes to it
    on descriptor 1) or not (exit code 2); when one of them is missing or
    is a regular file, the child exits with 1 after the [perror] of line
    199 with that error, and nothing is created. *)
Theorem child_output_created `{Env} (fs : fsys) (cwd : string) (c : cmd) :
  input_file c = ""%string -> output_file c ≠ ""%string ->
  resolve cwd (output_file c) ∉ fs_dirs fs ->
  resolve cwd (output_file c) ∉ dom (fs_files fs) \/ path_error fs (resolve cwd (output_file c)) = None ->
  match path_error fs (resolve cwd (output_file c)) with
  | Some e => child fs cwd c = ChildExit 1 [perror MSG_OUT_OPEN e] fs
  | None =>
      match child fs cwd c with
      | ChildExec _ t fs' =>
          t !! 1%Z = Some (AppFile (resolve cwd (output_file c))) /\
          resolve cwd (output_file c) ∈ dom (fs_files fs')
      | ChildExit code _ fs' => code = 2%Z /\ resolve cwd (output_file c) ∈ dom (fs_files fs')
      end
  end.
Proof.
  intros Hin Hout Hd Hex. unfold child.
  destruct (redirect_in_cases fs cwd c fds0) as [[_ E]|[(? & ? & _)|(q & ? & _)]]; [|done|done].
  rewrite E. destruct (path_error fs _) as [e|] eqn:Hp.
  - destruct Hex as [Hf|]; [|done].
    unfold redirect_out, open_append. rewrite (streq_ne _ _ Hout). simpl.
    rewrite decide_False by done. apply not_elem_of_dom in Hf. by rewrite Hf, Hp.
  - destruct (redirect_out_cases fs cwd c fds0)
      as [[? _]|[(e & _ & Ho & _)|(q & fs2 & _ & Hq & _ & Hdom & _ & _ & E2)]]; [done| |].
    + unfold open_append in Ho. rewrite decide_False in Ho by done.
      by destruct (fs_files fs !! _); [|rewrite Hp in Ho].
    + rewrite E2. subst q. unfold exec_argv.
      destruct (argv (data c)) as [|a0 ?]; [done|].
      destruct (env_found a0); [|done]. split; [|done]. by rewrite lookup_insert_eq.
Qed.

Lemma child_output_created_witness :
  ("/nodir/x" ∉ fs_dirs demo_fs /\
   ("/nodir/x" ∉ dom (fs_files demo_fs) \/ path_error demo_fs "/nodir/x" = None)) /\
  @child env_demo demo_fs "/tmp" (mkCmd {[0 := "ls"]} "" "/nodir/x" false []) =
    ChildExit 1 [perror MSG_OUT_OPEN ENOENT] demo_fs.
Proof.
  assert (Hd : "/nodir/x" ∉ fs_dirs demo_fs) by (vm_compute; set_solver).
  assert (Hf : "/nodir/x" ∉ dom (fs_files demo_fs)) by (vm_compute; set_solver).
  split; [split; [exact Hd|by left]|].
  exact (@child_output_created env_demo demo_fs "/tmp" (mkCmd {[0 := "ls"]} "" "/nodir/x" false [])
           eq_refl ltac:(done) Hd (or_introl Hf)).
Defined.

End Launcher.
