(* ===== verification/Reaper.v ===== *)
(** * [execInput]: [fork] and the parent side

    Lines 165-176 and 218-235 of [src/driver.c].  The shell's session is
    the record [session]: its pid ([getpid] at line 17), the raw status
    [exit_status], the working directory, the files, the input not read
    yet, everything printed on standard output and on standard error, the
    pid the next [fork] returns, the background children that were never
    reaped, the heap: the blocks [strdup] allocated so far, none of
    which is ever freed, and the log [s_io] of the calls on the streams
    ([say] is [printf], [say_err] a write to standard error, [flush_out]
    [fflush(stdout)] or the flush of [exit], and [spawned] records the
    [fork]).  [execInput] forks (a failure prints [perror("fork()\n")]
    and ends the shell with [exit(1)]); the child runs [Launcher.child], and
    its diagnostics reach standard error before the parent's [waitpid]
    returns.
    In the foreground the parent blocks in [waitpid(spawnPid, exit_status, 0)]
    and [exit_status] becomes the child's status.  In the background it
    calls [waitpid(spawnPid, exit_status, WNOHANG)] once: if the child has
    already ended, the call returns its pid and stores its status, otherwise
    it returns 0 and stores nothing, and the child is never waited for
    again.  Either way it prints ["childPid in background is "] and the
    value [waitpid] returned (so 0 for a running child), then a status report
    computed from the pointer [exit_status] itself: the report decodes the
    address [env_status_addr], not the child's status.

    A background child that is still running when it is polled is recorded
    in [s_zombies]; what it does to the files afterwards is not modelled. *)

From S2P Require Import Prelude CStr WaitStatus Os Stdio Tokenizer Launcher.

Module Reaper.
Import CStr WaitStatus Os Stdio Tokenizer Launcher.

Record session := mkS {
  s_pid : Z;
  s_status : Z;
  s_cwd : string;
  s_fs : fsys;
  s_stdin : string;
  s_out : list string;
  s_err : list string;
  s_next : Z;
  s_zombies : list Z;
  s_heap : list block;
  s_io : list ev
}.

Definition set_status (st : Z) (fs : fsys) (s : session) : session :=
  mkS (s_pid s) st (s_cwd s) fs (s_stdin s) (s_out s) (s_err s) (s_next s) (s_zombies s)
    (s_heap s) (s_io s).

(** [printf] of each message, in order. *)
Definition say (m : list string) (s : session) : session :=
  mkS (s_pid s) (s_status s) (s_cwd s) (s_fs s) (s_stdin s) (s_out s ++ m) (s_err s) (s_next s)
    (s_zombies s) (s_heap s) (s_io s ++ map Wr m).

(** Writes to standard error ([perror]). *)
Definition say_err (m : list string) (s : session) : session :=
  mkS (s_pid s) (s_status s) (s_cwd s) (s_fs s) (s_stdin s) (s_out s) (s_err s ++ m) (s_next s)
    (s_zombies s) (s_heap s) (s_io s ++ map Er m).

(** [fflush(stdout)], and the flush [exit] does. *)
Definition flush_out (s : session) : session :=
  mkS (s_pid s) (s_status s) (s_cwd s) (s_fs s) (s_stdin s) (s_out s) (s_err s) (s_next s)
    (s_zombies s) (s_heap s) (s_io s ++ [Fl]).

(** A successful [fork]: the next pid is taken. *)
Definition spawned (s : session) : session :=
  mkS (s_pid s) (s_status s) (s_cwd s) (s_fs s) (s_stdin s) (s_out s) (s_err s) (s_next s + 1)
    (s_zombies s) (s_heap s) (s_io s ++ [Fk]).

Definition add_zombie (p : Z) (s : session) : session :=
  mkS (s_pid s) (s_status s) (s_cwd s) (s_fs s) (s_stdin s) (s_out s) (s_err s) (s_next s)
    (p :: s_zombies s) (s_heap s) (s_io s).

(** Unfolds the session updates and their projections. *)
Ltac sess_simpl :=
  unfold say, say_err, flush_out, spawned, add_zombie, set_status in *;
  cbn [s_pid s_status s_cwd s_fs s_stdin s_out s_err s_next s_zombies s_heap s_io map app] in *.

Inductive exec_result :=
| ExecOk (s : session)
| ForkFailed (s : session).

Definition MSG_FORK : string := "fork()" +:+ String NL "".

Definition BG_MSG (ret : Z) : string :=
  "childPid in background is " +:+ snprintf_d ret +:+ String NL "".

(** [WIFEXITED(exit_status)] and the rest applied to the [int *]: with the
    glibc that accepted it, the low bits of the address. *)
Definition bg_report `{Env} : string := status_msg env_status_addr.

(** [execInput(data, input_file, output_file, &background, pid, &exit_status)] *)
Definition execInput `{Env} (c : cmd) (s : session) : exec_result :=
  let cpid := s_next s in
  if env_fork_fails cpid then ForkFailed (flush_out (say_err [perror MSG_FORK env_fork_errno] s))
  else
    let o := child (s_fs s) (s_cwd s) c in
    let s1 := spawned s in
    if background c then
      if env_bg_done cpid then
        let '(fs', st) := child_status o in
        ExecOk (say [bg_report]
                  (flush_out (say [BG_MSG cpid] (say_err (child_err o) (set_status st fs' s1)))))
      else ExecOk (say [bg_report] (flush_out (say [BG_MSG 0] (add_zombie cpid s1))))
    else
      let '(fs', st) := child_status o in
      ExecOk (say_err (child_err o) (set_status st fs' s1)).

(** A session for the witnesses: pid 1234, nothing run yet. *)
Definition demo_session (stdin : string) : session :=
  mkS 1234 0 "/tmp" Launcher.demo_fs stdin [] [] 1235 [] [] [].

Definition env_demo_done : Env := {|
  env_home := Some "/home/u"%string;
  env_found := demo_found;
  env_run := demo_run;
  env_run_valid := @env_run_valid env_demo;
  env_fork_fails := fun _ => false;
  env_fork_errno := EAGAIN;
  env_bg_done := fun _ => true;
  env_status_addr := 2147226164%Z
|}.

(** ** Properties *)

(** C18: A foreground command: after the blocking
    [waitpid], [exit_status] is the status of the child, with the files it
    leaves, the child's diagnostics are on standard error, and the list of
    unreaped children is unchanged. *)
Theorem execInput_foreground `{Env} (c : cmd) (s s' : session) :
  background c = false -> execInput c s = ExecOk s' ->
  (s_fs s', s_status s') = child_status (child (s_fs s) (s_cwd s) c) /\
  s_zombies s' = s_zombies s /\ s_next s' = (s_next s + 1)%Z /\ s_out s' = s_out s /\
  s_err s' = s_err s ++ child_err (child (s_fs s) (s_cwd s) c).
Proof.
  intros Hb. unfold execInput. rewrite Hb.
  destruct (env_fork_fails (s_next s)); [done|].
  destruct (child_status _) as [fs' st]. by intros [= <-].
Qed.

Lemma execInput_foreground_witness :
  (Launcher.demo_fs, exited 2) =
    @child_status env_demo (@child env_demo Launcher.demo_fs "/tmp" (mkCmd {[0 := "nosuch"]} "" "" false [])) /\
  [] = @nil Z /\ 1236%Z = (1235 + 1)%Z /\ @nil string = [] /\
  [perror MSG_EXEC ENOENT] =
    [] ++ child_err (@child env_demo Launcher.demo_fs "/tmp" (mkCmd {[0 := "nosuch"]} "" "" false [])).
Proof.
  apply (@execInput_foreground env_demo (mkCmd {[0 := "nosuch"]} "" "" false []) (demo_session "")
           (mkS 1234 (exited 2) "/tmp" Launcher.demo_fs "" [] [perror MSG_EXEC ENOENT] 1236 [] []
              [Fk; Er (perror MSG_EXEC ENOENT)]));
    [reflexivity|vm_compute; reflexivity].
Defined.

(** C8: A background command whose child is
    still running at the single [WNOHANG] poll: [exit_status] keeps its old
    value, the child is never reaped, and the shell prints
    ["childPid in background is 0"] (the value [waitpid] returned, not the
    child's pid) followed by a report that decodes the address of
    [exit_status], whatever the child does. *)
Theorem execInput_background_running `{Env} (c : cmd) (s : session) :
  background c = true -> env_fork_fails (s_next s) = false ->
  env_bg_done (s_next s) = false ->
  execInput c s =
  ExecOk (mkS (s_pid s) (s_status s) (s_cwd s) (s_fs s) (s_stdin s)
            (s_out s ++ [BG_MSG 0; status_msg env_status_addr]) (s_err s)
            (s_next s + 1) (s_next s :: s_zombies s) (s_heap s)
            (s_io s ++ [Fk; Wr (BG_MSG 0); Fl; Wr (status_msg env_status_addr)])).
Proof. intros Hb Hf Hd. unfold execInput. rewrite Hf, Hb, Hd. unfold bg_report. sess_simpl. by rewrite <- !app_assoc. Qed.

Lemma execInput_background_running_witness :
  @execInput env_demo (mkCmd {[0 := "sleep"; 1 := "5"]} "" "" true []) (demo_session "") =
  ExecOk (mkS 1234 0 "/tmp" Launcher.demo_fs ""
            [BG_MSG 0; status_msg 2147226164] [] 1236 [1235%Z] []
            [Fk; Wr (BG_MSG 0); Fl; Wr (status_msg 2147226164)]).
Proof. apply (@execInput_background_running env_demo); reflexivity. Defined.

(** C19: A background child that has already ended
    when it is polled is reaped then: [exit_status] becomes its status, its
    diagnostics are on standard error and its pid is printed. *)
Theorem execInput_background_done `{Env} (c : cmd) (s s' : session) :
  background c = true -> env_bg_done (s_next s) = true -> execInput c s = ExecOk s' ->
  (s_fs s', s_status s') = child_status (child (s_fs s) (s_cwd s) c) /\
  s_zombies s' = s_zombies s /\
  s_out s' = s_out s ++ [BG_MSG (s_next s); status_msg env_status_addr] /\
  s_err s' = s_err s ++ child_err (child (s_fs s) (s_cwd s) c).
Proof.
  intros Hb Hd. unfold execInput. rewrite Hb, Hd.
  destruct (env_fork_fails (s_next s)); [done|].
  destruct (child_status _) as [fs' st]. intros [= <-]. sess_simpl. by rewrite <- !app_assoc.
Qed.

Lemma execInput_background_done_witness :
  (Launcher.demo_fs, exited 0) =
    @child_status env_demo_done
      (@child env_demo_done Launcher.demo_fs "/tmp" (mkCmd {[0 := "true"]} "" "" true [])) /\
  @nil Z = [] /\
  [BG_MSG 1235; status_msg 2147226164] = [] ++ [BG_MSG 1235; status_msg 2147226164] /\
  @nil string = [] ++ child_err (@child env_demo_done Launcher.demo_fs "/tmp" (mkCmd {[0 := "true"]} "" "" true [])).
Proof.
  apply (@execInput_background_done env_demo_done (mkCmd {[0 := "true"]} "" "" true [])
           (demo_session "")
           (mkS 1234 (exited 0) "/tmp" Launcher.demo_fs "" [BG_MSG 1235; status_msg 2147226164] []
              1236 [] [] [Fk; Wr (BG_MSG 1235); Fl; Wr (status_msg 2147226164)]));
    [reflexivity|reflexivity|vm_compute; reflexivity].
Defined.

End Reaper.
