(* ===== verification/Shell.v ===== *)
(** * [main]: the loop of the shell

    Lines 15-82 of [src/driver.c].  One iteration of [while (!exit)] is
    [main_step]: [getInput] on the cleared buffers, then the dispatch on
    [input[0]]: NULL, empty or starting with [#] re-prompts; [exit] ends the
    loop and [main] returns 0; [status] prints the report of [exit_status];
    [cd] changes directory; anything else goes to [execInput].  The loop can
    also end by a crash in [getInput] ([strcpy] from NULL), by a failed
    [fork] ([exit(1)]), or reach end of input, where [fgets] returns NULL and
    the code goes on with a buffer [fgets] did not write: the model stops
    there, in [Undefined], and does not follow the loop further.

    [run] iterates [main_step] with fuel.  [step] is the abstract
    specification of one iteration, with the choices of the operating system
    left free (whether [fork] fails, whether a background child has ended,
    what status and files a child leaves, as long as the status is a valid
    one); [main_step_refines] shows that [main_step] takes one of its steps
    for every environment, and the invariants are proved on [step] by rule
    induction.
    [dispatch] makes the [fflush] calls of lines 40, 61, 65 and 75, and
    [getInput_io] are the calls [getInput] makes on the streams, which
    [consume] adds to the log; [run_prompt_visible] and [run_fork_flushed]
    show, for every buffering mode of standard output, that nothing is
    pending when the shell waits for input, forks, or writes to standard
    error.  [consume] adds the blocks [getInput] allocated to the heap; the [memset]
    of the next iteration drops the pointers to them, and [run_heap_leak]
    shows that along a script the heap is the blocks of every line read. *)

From S2P Require Import Prelude CStr WaitStatus Os Stdio Input Strtok Subst Tokenizer Launcher Reaper.

Module Shell.
Import CStr WaitStatus Os Stdio Input Strtok Subst Tokenizer Launcher Reaper.

Inductive outcome :=
| Running (s : session)
| Exited (code : Z) (s : session)
| Crashed (s : session)
| Undefined (s : session).

Definition MSG_NODIR : string := "Directory does not exist." +:+ String NL "".

(** [input[0][0] == '#'] *)
Definition is_comment (a : string) : bool :=
  match a with String c _ => Ascii.eqb c "#"%char | EmptyString => false end.

(** The calls [getInput] makes on the streams, from what it printed:
    [printf(": ")], [fflush(stdout)] and [fgets] (lines 90-92), then the
    [printf] and [fflush] of each message of the loop (lines 118-119).  The
    [fflush] of lines 103 and 151 follow a [fflush] with nothing printed in
    between, on an empty buffer. *)
Definition getInput_io (out : list string) : list ev :=
  match out with
  | [] => []
  | p :: ms => [Wr p; Fl; Rd] ++ flat_map (fun m => [Wr m; Fl]) ms
  end.

(** The session after [getInput]: the input left, what it printed, and the
    blocks it allocated, which stay on the heap: [main] clears the pointers
    with [memset] at the next iteration and never frees them. *)
Definition consume (rest : string) (out : list string) (bs : list block) (s : session) : session :=
  mkS (s_pid s) (s_status s) (s_cwd s) (s_fs s) rest (s_out s ++ out) (s_err s) (s_next s)
    (s_zombies s) (s_heap s ++ bs) (s_io s ++ getInput_io out).

(** What [getInput] printed when it returns no command. *)
Definition printed (out : list string) (s : session) : session :=
  mkS (s_pid s) (s_status s) (s_cwd s) (s_fs s) (s_stdin s) (s_out s ++ out) (s_err s) (s_next s)
    (s_zombies s) (s_heap s) (s_io s ++ getInput_io out).

Definition set_cwd (d : string) (s : session) : session :=
  mkS (s_pid s) (s_status s) d (s_fs s) (s_stdin s) (s_out s) (s_err s) (s_next s) (s_zombies s)
    (s_heap s) (s_io s).

(** Lines 62-71 (after the [fflush] of line 61): [cd] with [input[1]],
    whose failure is reported and flushed, or with [getenv("HOME")], whose
    failure (no [HOME], or not a directory) is silent. *)
Definition cd_builtin `{Env} (c : cmd) (s : session) : session :=
  match data c !! 1 with
  | Some p =>
      match chdir (s_fs s) (s_cwd s) p with
      | Some d => set_cwd d s
      | None => flush_out (say [MSG_NODIR] s)
      end
  | None =>
      match env_home with
      | Some h => match chdir (s_fs s) (s_cwd s) h with Some d => set_cwd d s | None => s end
      | None => s
      end
  end.

(** Lines 34-77, on the command [getInput] returned, with the [fflush]
    of lines 40, 61 and 75; [exit] ends [main], whose return flushes
    standard output. *)
Definition dispatch `{Env} (c : cmd) (s : session) : outcome :=
  match data c !! 0 with
  | None => Running s
  | Some a0 =>
      if (a0 =s= "") || is_comment a0 then Running (flush_out s)
      else if a0 =s= "exit" then Exited 0 (flush_out s)
      else if a0 =s= "status" then Running (say [status_msg (s_status s)] s)
      else if a0 =s= "cd" then Running (cd_builtin c (flush_out s))
      else match execInput c (flush_out s) with
           | ExecOk s' => Running s'
           | ForkFailed s' => Exited 1 s'
           end
  end.

(** One iteration of [while (!exit)]. *)
Definition main_step `{Env} (s : session) : outcome :=
  match getInput (s_pid s) (s_stdin s) with
  | GotEof out => Undefined (printed out s)
  | GotCrash out => Crashed (printed out s)
  | GotFuel => Crashed s
  | GotCmd c out rest => dispatch c (consume rest out (blocks c) s)
  end.

(** [main] from a session, for at most [fuel] iterations. *)
Fixpoint run `{Env} (fuel : nat) (s : session) : outcome :=
  match fuel with
  | 0 => Running s
  | S fuel' =>
      match main_step s with
      | Running s' => run fuel' s'
      | o => o
      end
  end.

(** The session [main] starts with: [exit_status = 0], nothing printed. *)
Definition init (pid : Z) (cwd : string) (fs : fsys) (stdin : string) (next : Z) : session :=
  mkS pid 0 cwd fs stdin [] [] next [] [] [].

(** ** The abstract specification of one iteration *)

(** The end of [cd]: the report of a failing [chdir(input[1])], flushed,
    or nothing. *)
Definition cd_report (bad : bool) (s : session) : session :=
  if bad then flush_out (say [MSG_NODIR] s) else s.

(** What the first argument makes of a command. *)
Inductive kind := KNone | KSkip | KExit | KStatus | KCd | KExternal.

Definition kind_of (c : cmd) : kind :=
  match data c !! 0 with
  | None => KNone
  | Some a0 =>
      if (a0 =s= "") || is_comment a0 then KSkip
      else if a0 =s= "exit" then KExit
      else if a0 =s= "status" then KStatus
      else if a0 =s= "cd" then KCd
      else KExternal
  end.

(** The session after the line has been read. *)
Abbreviation S1 s c rest out := (consume rest out (blocks c) s).

Inductive step : session -> outcome -> Prop :=
| step_eof s out :
    getInput (s_pid s) (s_stdin s) = GotEof out -> step s (Undefined (printed out s))
| step_crash s out :
    getInput (s_pid s) (s_stdin s) = GotCrash out -> step s (Crashed (printed out s))
| step_none s c out rest :
    getInput (s_pid s) (s_stdin s) = GotCmd c out rest -> kind_of c = KNone ->
    step s (Running (S1 s c rest out))
| step_skip s c out rest :
    getInput (s_pid s) (s_stdin s) = GotCmd c out rest -> kind_of c = KSkip ->
    step s (Running (flush_out (S1 s c rest out)))
| step_exit s c out rest :
    getInput (s_pid s) (s_stdin s) = GotCmd c out rest -> kind_of c = KExit ->
    step s (Exited 0 (flush_out (S1 s c rest out)))
| step_status s c out rest :
    getInput (s_pid s) (s_stdin s) = GotCmd c out rest -> kind_of c = KStatus ->
    step s (Running (say [status_msg (s_status s)] (S1 s c rest out)))
| step_cd s c out rest cwd' (bad : bool) :
    getInput (s_pid s) (s_stdin s) = GotCmd c out rest -> kind_of c = KCd ->
    step s (Running (cd_report bad (set_cwd cwd' (flush_out (S1 s c rest out)))))
| step_fork_fail s c out rest e :
    getInput (s_pid s) (s_stdin s) = GotCmd c out rest -> kind_of c = KExternal ->
    step s (Exited 1 (flush_out (say_err [perror MSG_FORK e] (flush_out (S1 s c rest out)))))
| step_fg s c out rest st fs' errs :
    getInput (s_pid s) (s_stdin s) = GotCmd c out rest -> kind_of c = KExternal ->
    background c = false -> valid_status st ->
    step s (Running (say_err errs (set_status st fs' (spawned (flush_out (S1 s c rest out))))))
| step_bg_done s c out rest st fs' errs addr :
    getInput (s_pid s) (s_stdin s) = GotCmd c out rest -> kind_of c = KExternal ->
    background c = true -> valid_status st ->
    step s (Running (say [status_msg addr] (flush_out (say [BG_MSG (s_next s)]
                       (say_err errs (set_status st fs' (spawned (flush_out (S1 s c rest out)))))))))
| step_bg_running s c out rest addr :
    getInput (s_pid s) (s_stdin s) = GotCmd c out rest -> kind_of c = KExternal ->
    background c = true ->
    step s (Running (say [status_msg addr] (flush_out (say [BG_MSG 0]
                       (add_zombie (s_next s) (spawned (flush_out (S1 s c rest out)))))))).

(** Inversion of a step, with the two ends of [cd] apart. *)
Ltac inv_step Hs :=
  inversion Hs as [| | | | | |? ? ? ? ? bad| | | |]; subst; try destruct bad.

(** The session an outcome carries. *)
Definition session_of (o : outcome) : session :=
  match o with Running s | Exited _ s | Crashed s | Undefined s => s end.

(** A step after which the loop goes on. *)
Definition running_step (s s' : session) : Prop := step s (Running s').

(** The invariant of the sessions of [main]: [exit_status] holds a status
    [waitpid] can store (or its initial 0, the status of [exit(0)]), and the
    unreaped children are distinct pids that [fork] returned before. *)
Definition shell_inv (s : session) : Prop :=
  valid_status (s_status s) /\ NoDup (s_zombies s) /\
  Forall (fun z => (z < s_next s)%Z) (s_zombies s).

(** The invariant of the log of calls on the streams: standard error,
    [fgets] and [fork] only on a flushed standard output, and every [fgets]
    right after the prompt and its [fflush]. *)
Definition io_inv (s : session) : Prop :=
  ordered false (s_io s) = true /\ prompted PROMPT (s_io s) = true.

(** The order of sessions along a run: the pid is kept, standard output
    and standard error only grow, and so do the heap (no block is ever
    freed) and the log of calls on the streams. *)
Definition session_le (s s' : session) : Prop :=
  s_pid s' = s_pid s /\ s_out s `prefix_of` s_out s' /\ s_err s `prefix_of` s_err s' /\
  s_heap s `prefix_of` s_heap s' /\ s_io s `prefix_of` s_io s'.

#[export] Instance session_le_preorder : PreOrder session_le.
Proof.
  split; [done|]. intros s1 s2 s3 (? & ? & ? & ? & ?) (? & ? & ? & ? & ?).
  split_and!; [congruence|by etrans..].
Qed.

#[export] Instance kind_eq_dec : EqDecision kind.
Proof. solve_decision. Defined.

(** A script on standard input: each line followed by a newline. *)
Fixpoint concat_lines (ls : list string) : string :=
  match ls with
  | [] => ""
  | l :: ls' => l +:+ String NL (concat_lines ls')
  end.

(** A line after which [main] goes on: it fits the buffer of [fgets], it is
    tokenized without a crash, and it is not [exit]. *)
Definition line_runs (pid : Z) (l : string) : bool :=
  bool_decide (NL ∉ String.list_ascii_of_string l) && (String.length l <? INPUTSIZE - 1) &&
  match getInput pid (l +:+ String NL "") with
  | GotCmd c _ _ => bool_decide (kind_of c <> KExit)
  | _ => false
  end.

(** The blocks [getInput] allocates for a line of a script. *)
Definition line_blocks (pid : Z) (l : string) : list block :=
  match getInput pid (l +:+ String NL "") with GotCmd c _ _ => blocks c | _ => [] end.

(** ** [main_step] takes a step of the specification *)

Lemma dispatch_kind `{Env} (c : cmd) (s : session) :
  dispatch c s =
  match kind_of c with
  | KNone => Running s
  | KSkip => Running (flush_out s)
  | KExit => Exited 0 (flush_out s)
  | KStatus => Running (say [status_msg (s_status s)] s)
  | KCd => Running (cd_builtin c (flush_out s))
  | KExternal =>
      match execInput c (flush_out s) with ExecOk s' => Running s' | ForkFailed s' => Exited 1 s' end
  end.
Proof.
  unfold dispatch, kind_of. destruct (data c !! 0) as [a0|]; [|done].
  destruct ((a0 =s= "") || is_comment a0); [done|].
  destruct (a0 =s= "exit"); [done|]. destruct (a0 =s= "status"); [done|].
  by destruct (a0 =s= "cd").
Qed.

Lemma child_status_valid `{Env} (o : child_outcome) : valid_status (snd (child_status o)).
Proof. destruct o; simpl; [left; eauto|apply env_run_valid]. Qed.

Lemma set_cwd_same (s : session) : set_cwd (s_cwd s) s = s.
Proof. by destruct s. Qed.

Lemma cd_builtin_shape `{Env} (c : cmd) (s : session) :
  exists cwd' bad, cd_builtin c s = cd_report bad (set_cwd cwd' s).
Proof.
  unfold cd_builtin.
  destruct (data c !! 1) as [p|].
  - destruct (chdir _ _ p) as [d|]; [by exists d, false|exists (s_cwd s), true].
    by rewrite set_cwd_same.
  - destruct env_home as [h|]; [destruct (chdir _ _ h) as [d|]; [by exists d, false|]|].
    all: exists (s_cwd s), false; by rewrite set_cwd_same.
Qed.

Lemma execInput_step `{Env} (c : cmd) (s s0 : session) (out : list string) (rest : string) :
  getInput (s_pid s0) (s_stdin s0) = GotCmd c out rest -> kind_of c = KExternal ->
  s = consume rest out (blocks c) s0 ->
  step s0 (match execInput c (flush_out s) with ExecOk s' => Running s' | ForkFailed s' => Exited 1 s' end).
Proof.
  intros Hg Hk ->. unfold execInput.
  destruct (env_fork_fails _); [by eapply step_fork_fail|].
  pose proof (child_status_valid (child (s_fs s0) (s_cwd s0) c)) as Hv.
  change (s_fs (flush_out (consume rest out (blocks c) s0))) with (s_fs s0).
  change (s_cwd (flush_out (consume rest out (blocks c) s0))) with (s_cwd s0).
  destruct (background c) eqn:Hb; [destruct (env_bg_done _)|];
    destruct (child_status _) as [fs' st]; simpl in Hv;
    change (s_next (flush_out (consume rest out (blocks c) s0))) with (s_next s0).
  - by eapply step_bg_done.
  - by eapply step_bg_running.
  - by eapply step_fg.
Qed.

(** C2: Refinement: in every environment, one iteration of
    the loop of [main] is a step of the specification [step]. *)
Theorem main_step_refines `{Env} (s : session) : step s (main_step s).
Proof.
  unfold main_step. pose proof (getInput_not_fuel (s_pid s) (s_stdin s)) as Ht.
  destruct (getInput _ _) as [c out rest|out|out|] eqn:Hg; [|by constructor|by constructor|done].
  rewrite dispatch_kind. destruct (kind_of c) eqn:Hk.
  - by eapply step_none.
  - by eapply step_skip.
  - by eapply step_exit.
  - change (s_status (consume rest out (blocks c) s)) with (s_status s). by eapply step_status.
  - destruct (cd_builtin_shape c (flush_out (consume rest out (blocks c) s))) as (cwd' & bad & ->).
    by eapply step_cd.
  - by eapply execInput_step.
Qed.

(** ** Invariants, by induction on the steps *)

Lemma valid_status_0 : valid_status 0.
Proof. left. by exists 0%Z. Qed.

Lemma shell_inv_init (pid : Z) (cwd : string) (fs : fsys) (stdin : string) (next : Z) :
  shell_inv (init pid cwd fs stdin next).
Proof. split_and!; [apply valid_status_0|constructor|constructor]. Qed.

(** Each step keeps the invariant and the pid, and only appends output. *)
Lemma step_inv (s : session) (o : outcome) :
  step s o -> shell_inv s -> shell_inv (session_of o) /\ session_le s (session_of o).
Proof.
  intros Hs (Hv & Hnd & Hlt). unfold shell_inv, session_le.
  inv_step Hs; simpl; rewrite ?app_nil_r.
  all: split_and!; try done; try (by eexists); try (by eapply Forall_impl; [done|simpl; lia]).
  all: try (eexists; by rewrite <- ?app_assoc).
  - apply NoDup_cons_2; [|done]. rewrite Forall_forall in Hlt.
    intros Hin. specialize (Hlt _ Hin). simpl in Hlt. lia.
  - apply Forall_cons_2; [lia|]. eapply Forall_impl; [done|simpl; lia].
Qed.

(** ** The calls on the streams *)

(** The calls of [getInput] on the streams: the prompt, flushed, then
    [fgets], then messages each flushed. *)
Lemma getInput_io_prompt (ms : list string) :
  getInput_io (PROMPT :: ms) = [Wr PROMPT; Fl; Rd] ++ flat_map (fun m => [Wr m; Fl]) ms.
Proof. done. Qed.

Lemma ordered_pairs (ms : list string) (t : list ev) :
  ordered false (flat_map (fun m => [Wr m; Fl]) ms ++ t) = ordered false t.
Proof. by induction ms. Qed.

Lemma no_read_pairs (ms : list string) : Rd ∉ flat_map (fun m => [Wr m; Fl]) ms.
Proof.
  intros H. apply list_elem_of_In, in_flat_map in H as (m & _ & Hm). simpl in Hm. naive_solver.
Qed.

Lemma ordered_Er (l : list string) (t : list ev) : ordered false (map Er l ++ t) = ordered false t.
Proof. by induction l. Qed.

Lemma ordered_Er_end (l : list string) : ordered false (map Er l) = true.
Proof. by induction l. Qed.

Lemma no_read_Er (l : list string) : Rd ∉ map Er l.
Proof. intros H. by apply list_elem_of_In, in_map_iff in H as (? & ? & _). Qed.

(** Rd is not among the calls of a tail. *)
Ltac no_read :=
  repeat first [ apply not_elem_of_app; split | apply not_elem_of_cons; split; [discriminate|]
               | apply not_elem_of_nil | apply no_read_Er ].

(** An iteration appends the calls of [getInput], then calls that follow
    the discipline and do not read. *)
Lemma io_inv_extend (l : list ev) (ms : list string) (t : list ev) :
  ordered false l = true -> prompted PROMPT l = true ->
  ordered false t = true -> Rd ∉ t ->
  ordered false (l ++ getInput_io (PROMPT :: ms) ++ t) = true /\
  prompted PROMPT (l ++ getInput_io (PROMPT :: ms) ++ t) = true.
Proof.
  intros Ho Hp Ht Hn. rewrite getInput_io_prompt, <- app_assoc. split.
  - rewrite ordered_app, Ho. simpl. by rewrite ordered_pairs.
  - unfold prompted in *. rewrite reads_after_app, Hp. simpl. rewrite ?bool_decide_true by done.
    apply reads_after_no_read. apply not_elem_of_app. split; [apply no_read_pairs|done].
Qed.

Lemma io_inv_extend0 (l : list ev) (ms : list string) :
  ordered false l = true -> prompted PROMPT l = true ->
  ordered false (l ++ getInput_io (PROMPT :: ms)) = true /\
  prompted PROMPT (l ++ getInput_io (PROMPT :: ms)) = true.
Proof.
  intros Ho Hp. rewrite <- (app_nil_r (getInput_io (PROMPT :: ms))).
  apply io_inv_extend; [done|done|done|apply not_elem_of_nil].
Qed.

(** Each step keeps the discipline of the calls on the streams. *)
Lemma step_io (s : session) (o : outcome) : step s o -> io_inv s -> io_inv (session_of o).
Proof.
  intros Hs [Ho Hp]. pose proof (getInput_prompt (s_pid s) (s_stdin s)) as Hq.
  inv_step Hs;
    match goal with Hg : getInput _ _ = _ |- _ => rewrite Hg in Hq end;
    destruct Hq as [ms ->]; unfold io_inv; simpl; rewrite <- ?app_assoc.
  all: first [apply io_inv_extend0; done | apply io_inv_extend; [done|done| |]].
  all: first [simpl; rewrite ?ordered_Er, ?ordered_Er_end; reflexivity | no_read].
Qed.

Lemma reach_io (s s' : session) : rtc running_step s s' -> io_inv s -> io_inv s'.
Proof.
  induction 1 as [s|s s1 s' Hs _ IH]; intros Hi; [done|]. apply IH. exact (step_io _ _ Hs Hi).
Qed.

(** [run] is a sequence of steps of the specification. *)
Lemma run_steps `{Env} (n : nat) (s : session) :
  exists s1, rtc running_step s s1 /\ (run n s = Running s1 \/ step s1 (run n s)).
Proof.
  revert s; induction n as [|n IH]; intros s; simpl; [exists s; split; [done|by left]|].
  pose proof (main_step_refines s) as Hst.
  destruct (main_step s) as [s'|code s'|s'|s'] eqn:E;
    try (exists s; split; [done|by right]).
  destruct (IH s') as (s1 & Hr & Ho). exists s1. split; [|done].
  by eapply rtc_l.
Qed.

Lemma reach_inv_go (s s' : session) :
  rtc running_step s s' -> shell_inv s -> shell_inv s' /\ session_le s s'.
Proof.
  induction 1 as [s|s s1 s' Hs _ IH]; intros Hi; [done|].
  destruct (step_inv _ _ Hs Hi) as (Hi1 & Hle1); simpl in *.
  destruct (IH Hi1) as (Hi' & Hle'). split; [done|by etrans].
Qed.

(** Whatever the environment, every session [main] reaches keeps the
    discipline. *)
Lemma run_io `{Env} (n : nat) (pid : Z) (cwd : string) (fs : fsys) (stdin : string) (next : Z) :
  io_inv (session_of (run n (init pid cwd fs stdin next))).
Proof.
  destruct (run_steps n (init pid cwd fs stdin next)) as (s1 & Hr & [-> | Hs]);
    pose proof (reach_io _ _ Hr ltac:(done)) as Hi; [done|].
  exact (step_io _ _ Hs Hi).
Qed.

(** The log of a run, cut at a call that needs a flushed buffer. *)
Lemma run_io_sync `{Env} (md : mode) (n : nat) (pid : Z) (cwd : string) (fs : fsys)
    (stdin : string) (next : Z) (es1 es2 : list ev) (e : ev) :
  s_io (session_of (run n (init pid cwd fs stdin next))) = es1 ++ e :: es2 ->
  e = Rd \/ e = Fk \/ (exists m, e = Er m) ->
  io_buf (io_run md es1 io0) = [] /\
  io_tty (io_run md es1 io0) = io_tty (io_run Unbuffered es1 io0).
Proof.
  intros He Hk. destruct (run_io n pid cwd fs stdin next) as [Ho _]. rewrite He in Ho.
  pose proof (ordered_sync false es1 es2 e Ho Hk) as Hd.
  rewrite ordered_app in Ho. apply andb_true_iff in Ho as [Ho _].
  by apply io_clean.
Qed.

(** C3: Invariant of [main]: whatever the environment and however
    many iterations run, the session [main] ends or pauses in satisfies
    [shell_inv] and keeps the pid it started with. *)
Theorem run_inv `{Env} (n : nat) (pid : Z) (cwd : string) (fs : fsys) (stdin : string) (next : Z) :
  shell_inv (session_of (run n (init pid cwd fs stdin next))) /\
  s_pid (session_of (run n (init pid cwd fs stdin next))) = pid.
Proof.
  destruct (run_steps n (init pid cwd fs stdin next)) as (s1 & Hr & [-> | Hs]);
    destruct (reach_inv_go _ _ Hr (shell_inv_init pid cwd fs stdin next)) as (Hi & Hp & _);
    [done|].
  destruct (step_inv _ _ Hs Hi) as (Hi' & Hp' & _). split; [done|by rewrite Hp', Hp].
Qed.



(** C24: The [status] built-in prints the report of the
    current [exit_status] and changes nothing else: not the status, the
    directory, the files or the children. *)
Theorem main_step_status `{Env} (s : session) (c : cmd) (out : list string) (rest : string) :
  getInput (s_pid s) (s_stdin s) = GotCmd c out rest -> data c !! 0 = Some "status"%string ->
  main_step s =
  Running (mkS (s_pid s) (s_status s) (s_cwd s) (s_fs s) rest
             (s_out s ++ out ++ [status_msg (s_status s)]) (s_err s) (s_next s) (s_zombies s)
             (s_heap s ++ blocks c) (s_io s ++ getInput_io out ++ [Wr (status_msg (s_status s))])).
Proof.
  intros Hg H0. unfold main_step. rewrite Hg. unfold dispatch. rewrite H0. simpl.
  unfold say, consume. simpl. by rewrite <- !app_assoc.
Qed.

Lemma main_step_status_witness :
  getInput 1234 "status
" = GotCmd (mkCmd {[0 := "status"]} "" "" false [subst_block 1234 "status"]) [PROMPT] "" /\
  data (mkCmd {[0 := "status"]} "" "" false [subst_block 1234 "status"]) !! 0 = Some "status"%string /\
  @main_step env_demo (demo_session "status
") =
  Running (mkS 1234 0 "/tmp" Launcher.demo_fs "" ([] ++ [PROMPT] ++ [status_msg 0]) [] 1235 []
             ([] ++ [subst_block 1234 "status"]) ([] ++ getInput_io [PROMPT] ++ [Wr (status_msg 0)])).
Proof.
  assert (Hg : getInput 1234 "status
" = GotCmd (mkCmd {[0 := "status"]} "" "" false [subst_block 1234 "status"]) [PROMPT] "")
    by (vm_compute; reflexivity).
  split; [exact Hg|]. split; [reflexivity|].
  exact (@main_step_status env_demo (demo_session "status
") _ _ _ Hg eq_refl).
Defined.

Lemma main_step_cd `{Env} (s : session) (c : cmd) (out : list string) (rest : string) :
  getInput (s_pid s) (s_stdin s) = GotCmd c out rest -> data c !! 0 = Some "cd"%string ->
  main_step s = Running (cd_builtin c (flush_out (consume rest out (blocks c) s))).
Proof. intros Hg H0. unfold main_step. rewrite Hg. unfold dispatch. by rewrite H0. Qed.

(** C25: [cd dir]: when the directory exists (relative to
    the current one) it becomes the working directory; otherwise the shell
    prints ["Directory does not exist."] and stays where it is.  Nothing
    else changes. *)
Theorem main_step_cd_arg `{Env} (s : session) (c : cmd) (out : list string) (rest p : string) :
  getInput (s_pid s) (s_stdin s) = GotCmd c out rest -> data c !! 0 = Some "cd"%string ->
  data c !! 1 = Some p ->
  main_step s =
  Running (if decide (resolve (s_cwd s) p ∈ fs_dirs (s_fs s))
           then set_cwd (resolve (s_cwd s) p) (flush_out (consume rest out (blocks c) s))
           else flush_out (say [MSG_NODIR] (flush_out (consume rest out (blocks c) s)))).
Proof.
  intros Hg H0 H1. rewrite (main_step_cd s c out rest Hg H0).
  unfold cd_builtin, chdir. rewrite H1. simpl. by case_decide.
Qed.

Lemma main_step_cd_arg_witness :
  getInput 1234 "cd nowhere
" = GotCmd (mkCmd {[0 := "cd"; 1 := "nowhere"]} "" "" false
    [subst_block 1234 "cd"; subst_block 1234 "nowhere"]) [PROMPT] "" /\
  data (mkCmd {[0 := "cd"; 1 := "nowhere"]} "" "" false
    [subst_block 1234 "cd"; subst_block 1234 "nowhere"]) !! 0 = Some "cd"%string /\
  data (mkCmd {[0 := "cd"; 1 := "nowhere"]} "" "" false
    [subst_block 1234 "cd"; subst_block 1234 "nowhere"]) !! 1 = Some "nowhere"%string /\
  @main_step env_demo (demo_session "cd nowhere
") =
  Running (flush_out (say [MSG_NODIR] (flush_out (consume "" [PROMPT]
    [subst_block 1234 "cd"; subst_block 1234 "nowhere"] (demo_session "cd nowhere
"))))).
Proof.
  assert (Hg : getInput 1234 "cd nowhere
" = GotCmd (mkCmd {[0 := "cd"; 1 := "nowhere"]} "" "" false
    [subst_block 1234 "cd"; subst_block 1234 "nowhere"]) [PROMPT] "")
    by (vm_compute; reflexivity).
  split; [exact Hg|]. split; [reflexivity|]. split; [reflexivity|].
  rewrite (@main_step_cd_arg env_demo (demo_session "cd nowhere
") _ _ _ "nowhere" Hg eq_refl eq_refl).
  reflexivity.
Defined.

(** C26: [cd] followed by [<], [>] or [&]: the special
    token and everything after it leave [input[1]] NULL, so the shell goes
    to [HOME] (when it is a directory) and the redirection or [&] is
    silently dropped. *)
Theorem main_step_cd_special `{Env} (s : session) (line rest rest' h t : string)
    (ts : list string) (c : cmd) (out : list string) :
  read_line (s_stdin s) = Some (line, rest) ->
  split_spaces line = "cd"%string :: t :: ts -> plain t = false ->
  getInput (s_pid s) (s_stdin s) = GotCmd c out rest' ->
  env_home = Some h -> resolve (s_cwd s) h ∈ fs_dirs (s_fs s) ->
  main_step s = Running (set_cwd (resolve (s_cwd s) h) (flush_out (consume rest' out (blocks c) s))).
Proof.
  intros Hr Hw Ht Hg Hh Hd.
  destruct (getInput_special_slots (s_pid s) (s_stdin s) line rest rest' ["cd"%string] t ts c out
              Hr Hw ltac:(by repeat constructor) Ht ltac:(simpl; bound_lia) Hg) as [Hs Hn].
  specialize (Hs 0 "cd"%string eq_refl).
  rewrite expand_plain in Hs by (done || by apply nul_free_bool).
  rewrite (main_step_cd s c out rest' Hg Hs). unfold cd_builtin, chdir.
  simpl in Hn. rewrite Hn, Hh. simpl. by case_decide.
Qed.

Lemma main_step_cd_special_witness :
  read_line "cd > x
" = Some ("cd > x"%string, ""%string) /\
  split_spaces "cd > x" = ["cd"; ">"; "x"]%string /\ plain ">" = false /\
  getInput 1234 "cd > x
" = GotCmd (mkCmd {[0 := "cd"]} "" "x" false [subst_block 1234 "cd"]) [PROMPT] "" /\
  @env_home env_demo = Some "/home/u"%string /\
  resolve "/tmp" "/home/u" ∈ fs_dirs Launcher.demo_fs /\
  @main_step env_demo (demo_session "cd > x
") =
  Running (set_cwd "/home/u" (flush_out (consume "" [PROMPT] [subst_block 1234 "cd"] (demo_session "cd > x
")))).
Proof.
  assert (Hr : read_line "cd > x
" = Some ("cd > x"%string, ""%string)) by (vm_compute; reflexivity).
  assert (Hg : getInput 1234 "cd > x
" = GotCmd (mkCmd {[0 := "cd"]} "" "x" false [subst_block 1234 "cd"]) [PROMPT] "")
    by (vm_compute; reflexivity).
  assert (Hd : resolve "/tmp" "/home/u" ∈ fs_dirs Launcher.demo_fs) by (vm_compute; set_solver).
  split; [exact Hr|]. split; [reflexivity|]. split; [reflexivity|]. split; [exact Hg|].
  split; [reflexivity|]. split; [exact Hd|].
  exact (@main_step_cd_special env_demo (demo_session "cd > x
") _ _ _ "/home/u" ">" ["x"%string] _ _
           Hr eq_refl eq_refl Hg eq_refl Hd).
Defined.

(** C31: Built-ins, blank and comment lines never fork and never touch
    [exit_status], the files or the background children: only the working
    directory and the output can change. *)
Theorem main_step_builtin `{Env} (s : session) (c : cmd) (out : list string) (rest : string) :
  getInput (s_pid s) (s_stdin s) = GotCmd c out rest -> kind_of c <> KExternal ->
  s_status (session_of (main_step s)) = s_status s /\
  s_next (session_of (main_step s)) = s_next s /\
  s_zombies (session_of (main_step s)) = s_zombies s /\
  s_fs (session_of (main_step s)) = s_fs s.
Proof.
  intros Hg Hk. unfold main_step. rewrite Hg, dispatch_kind.
  destruct (kind_of c); [done|done|done|done| |done].
  destruct (cd_builtin_shape c (flush_out (consume rest out (blocks c) s))) as (cwd' & bad & ->).
  by destruct bad.
Qed.

Lemma main_step_builtin_witness :
  getInput 1234 "cd nowhere
" = GotCmd (mkCmd {[0 := "cd"; 1 := "nowhere"]} "" "" false
    [subst_block 1234 "cd"; subst_block 1234 "nowhere"]) [PROMPT] "" /\
  kind_of (mkCmd {[0 := "cd"; 1 := "nowhere"]} "" "" false
    [subst_block 1234 "cd"; subst_block 1234 "nowhere"]) <> KExternal /\
  s_status (session_of (@main_step env_demo (demo_session "cd nowhere
"))) = 0%Z /\
  s_next (session_of (@main_step env_demo (demo_session "cd nowhere
"))) = 1235%Z /\
  s_zombies (session_of (@main_step env_demo (demo_session "cd nowhere
"))) = [] /\
  s_fs (session_of (@main_step env_demo (demo_session "cd nowhere
"))) = Launcher.demo_fs.
Proof.
  assert (Hg : getInput 1234 "cd nowhere
" = GotCmd (mkCmd {[0 := "cd"; 1 := "nowhere"]} "" "" false
    [subst_block 1234 "cd"; subst_block 1234 "nowhere"]) [PROMPT] "")
    by (vm_compute; reflexivity).
  assert (Hk : kind_of (mkCmd {[0 := "cd"; 1 := "nowhere"]} "" "" false
    [subst_block 1234 "cd"; subst_block 1234 "nowhere"]) <> KExternal)
    by (vm_compute; discriminate).
  split; [exact Hg|]. split; [exact Hk|].
  exact (@main_step_builtin env_demo (demo_session "cd nowhere
") _ _ _ Hg Hk).
Defined.

(** C32: A foreground command: the iteration forks, waits, and records in
    [exit_status] the status of the child (its redirections, its exit codes
    1 and 2, or what the program does), so the next [status] reports it;
    the child's diagnostics are on standard error. *)
Theorem main_step_foreground_status `{Env} (s : session) (c : cmd) (out : list string) (rest : string) :
  getInput (s_pid s) (s_stdin s) = GotCmd c out rest -> kind_of c = KExternal ->
  background c = false -> env_fork_fails (s_next s) = false ->
  main_step s =
  Running (say_err (child_err (child (s_fs s) (s_cwd s) c))
             (set_status (snd (child_status (child (s_fs s) (s_cwd s) c)))
                         (fst (child_status (child (s_fs s) (s_cwd s) c)))
                         (spawned (flush_out (consume rest out (blocks c) s))))).
Proof.
  intros Hg Hk Hb Hf. unfold main_step. rewrite Hg, dispatch_kind, Hk.
  unfold execInput. simpl. rewrite Hf, Hb.
  by destruct (child_status _).
Qed.

Lemma main_step_foreground_status_witness :
  getInput 1234 "cat < missing
" = GotCmd (mkCmd {[0 := "cat"]} "missing" "" false [subst_block 1234 "cat"]) [PROMPT] "" /\
  kind_of (mkCmd {[0 := "cat"]} "missing" "" false [subst_block 1234 "cat"]) = KExternal /\
  background (mkCmd {[0 := "cat"]} "missing" "" false [subst_block 1234 "cat"]) = false /\
  @env_fork_fails env_demo 1235 = false /\
  @main_step env_demo (demo_session "cat < missing
") =
  Running (mkS 1234 (exited 1) "/tmp" Launcher.demo_fs "" [PROMPT]
             [perror MSG_IN_OPEN ENOENT] 1236 [] [subst_block 1234 "cat"]
             [Wr PROMPT; Fl; Rd; Fl; Fk; Er (perror MSG_IN_OPEN ENOENT)]).
Proof.
  assert (Hg : getInput 1234 "cat < missing
" = GotCmd (mkCmd {[0 := "cat"]} "missing" "" false [subst_block 1234 "cat"]) [PROMPT] "")
    by (vm_compute; reflexivity).
  split; [exact Hg|]. split; [reflexivity|]. split; [reflexivity|]. split; [reflexivity|].
  rewrite (@main_step_foreground_status env_demo (demo_session "cat < missing
") _ _ _ Hg eq_refl eq_refl eq_refl).
  vm_compute. reflexivity.
Defined.

(** ** Termination of the specification and reaching [exit] *)

Lemma getInput_exit_line (pid : Z) :
  getInput pid ("exit" +:+ String NL "") =
  GotCmd (mkCmd {[0 := "exit"]} "" "" false [subst_block pid "exit"]) [PROMPT] "".
Proof.
  assert (Hx : expand pid "exit" = "exit"%string)
    by (apply expand_plain; [apply nul_free_bool; vm_compute|]; reflexivity).
  rewrite getInput_unfold. unfold getInput_ref.
  replace (read_line _) with (Some ("exit"%string, ""%string)) by (vm_compute; reflexivity).
  replace (String.eqb "exit" "") with false by reflexivity.
  replace (split_spaces "exit") with ["exit"%string] by reflexivity.
  cbn [parse_tokens]. rewrite cap_ok by (simpl; bound_lia).
  cbn [String.eqb Ascii.eqb Bool.eqb parse_tokens result_of].
  unfold cmd_of, incr_i, store_arg, set_check_bg, tstate0. cbn [t_i t_data t_in t_out t_check_bg t_msgs t_blocks].
  change (cstr (b_bytes (subst_block pid "exit"))) with (expand pid "exit").
  by rewrite Hx.
Qed.

(** Any line but [exit] that is read without a crash keeps the loop running
    when [fork] does not fail; the rest of the input is what [getInput] left. *)
Lemma dispatch_running `{Env} (c : cmd) (s : session) :
  kind_of c <> KExit -> env_fork_fails (s_next s) = false ->
  exists s1, dispatch c s = Running s1 /\ s_stdin s1 = s_stdin s /\ s_pid s1 = s_pid s /\
             s_heap s1 = s_heap s.
Proof.
  intros Hk Hf. rewrite dispatch_kind.
  destruct (kind_of c); try done; try (by eexists).
  - destruct (cd_builtin_shape c (flush_out s)) as (cwd' & bad & ->). destruct bad; by eexists.
  - unfold execInput. change (s_next (flush_out s)) with (s_next s). rewrite Hf.
    change (s_fs (flush_out s)) with (s_fs s). change (s_cwd (flush_out s)) with (s_cwd s).
    destruct (background c); [destruct (env_bg_done _)|];
      destruct (child_status (child (s_fs s) (s_cwd s) c)); by eexists.
Qed.

(** A script of lines that run, then [exit]: [main] returns 0 after one
    iteration per line, and the heap then holds, after what it held, the
    blocks of every line in order: nothing is freed. *)
Lemma run_script `{Env} (ls : list string) (s : session) :
  Forall (fun l => line_runs (s_pid s) l = true) ls ->
  (forall p, env_fork_fails p = false) ->
  s_stdin s = concat_lines (ls ++ ["exit"%string]) ->
  exists s', run (S (length ls)) s = Exited 0 s' /\
             s_heap s' = s_heap s ++ concat (map (line_blocks (s_pid s)) (ls ++ ["exit"%string])).
Proof.
  intros Hls Hf. revert s Hls. induction ls as [|l ls IH]; intros s Hls Hin.
  - cbn [app map concat length run]. unfold main_step, line_blocks. rewrite Hin.
    cbn [concat_lines app]. rewrite getInput_exit_line. eexists. split; [done|].
    cbn [consume s_heap blocks]. by rewrite app_nil_r.
  - apply Forall_cons in Hls as [Hl Hls]. unfold line_runs in Hl.
    apply andb_true_iff in Hl as [[Hnl Hlen]%andb_true_iff Hc].
    apply bool_decide_eq_true_1 in Hnl. apply Nat.ltb_lt in Hlen.
    destruct (getInput (s_pid s) (l +:+ String NL "")) as [c out r| | |] eqn:Hg; try done.
    apply bool_decide_eq_true_1 in Hc.
    simpl. unfold main_step. rewrite Hin. cbn [concat_lines app].
    rewrite (getInput_line_indep _ _ _ Hnl Hlen), Hg.
    destruct (dispatch_running c (consume (concat_lines (ls ++ ["exit"%string])) out (blocks c) s) Hc (Hf _))
      as (s1 & -> & Hs1 & Hp1 & Hh1).
    destruct (IH s1) as (s' & Hr & Hh); [by rewrite Hp1|done|].
    exists s'. split; [done|]. rewrite Hh, Hh1, Hp1. cbn [s_heap consume s_pid].
    unfold line_blocks at 2. rewrite Hg. by rewrite <- app_assoc.
Qed.

(** C30: The leak: no block [getInput] allocates is ever freed.  Along
    a script that runs to [exit], the heap [main] ends with is the heap it
    started with followed by the blocks of every line, in the order the
    lines were read, the [exit] line included; the [memset] at the top of
    the loop drops the pointers to the blocks of the previous line. *)
Theorem run_heap_leak `{Env} (ls : list string) (s : session) :
  Forall (fun l => line_runs (s_pid s) l = true) ls ->
  (forall p, env_fork_fails p = false) ->
  s_stdin s = concat_lines (ls ++ ["exit"%string]) ->
  exists s', run (S (length ls)) s = Exited 0 s' /\
             s_heap s' = s_heap s ++ concat (map (line_blocks (s_pid s)) (ls ++ ["exit"%string])).
Proof. apply run_script. Qed.

Lemma run_heap_leak_witness :
  let ls := ["echo $$"; "status"; "cat a b"]%string in
  (Forall (fun l => line_runs 1234 l = true) ls /\ (forall p, @env_fork_fails env_demo p = false) /\
   s_stdin (demo_session (concat_lines (ls ++ ["exit"%string]))) = concat_lines (ls ++ ["exit"%string])) /\
  exists s', @run env_demo (S (length ls)) (demo_session (concat_lines (ls ++ ["exit"%string]))) = Exited 0 s' /\
    s_heap s' = [subst_block 1234 "echo"; subst_block 1234 "$$"; subst_block 1234 "status";
                 subst_block 1234 "cat"; subst_block 1234 "a"; subst_block 1234 "b";
                 subst_block 1234 "exit"].
Proof.
  intros ls.
  assert (H1 : Forall (fun l => line_runs 1234 l = true) ls) by (repeat constructor; vm_compute; reflexivity).
  assert (H2 : forall p, @env_fork_fails env_demo p = false) by reflexivity.
  split; [split_and!; [exact H1|exact H2|reflexivity]|].
  destruct (@run_heap_leak env_demo ls (demo_session (concat_lines (ls ++ ["exit"%string]))) H1 H2 eq_refl)
    as (s' & Hr & Hh).
  exists s'. split; [exact Hr|]. rewrite Hh. vm_compute. reflexivity.
Defined.

(** C27: The prompt is on the screen when the shell waits for input:
    whatever the environment and the buffering mode of standard output
    (line buffering on a terminal, full buffering on a pipe or a file),
    every time [main] blocks in [fgets] nothing is pending in the buffer of
    standard output, the terminal shows exactly what it would show with an
    unbuffered standard output, and it ends with the prompt [": "]. *)
Theorem run_prompt_visible `{Env} (md : mode) (n : nat) (pid : Z) (cwd : string) (fs : fsys)
    (stdin : string) (next : Z) (es1 es2 : list ev) :
  s_io (session_of (run n (init pid cwd fs stdin next))) = es1 ++ Rd :: es2 ->
  io_buf (io_run md es1 io0) = [] /\
  io_tty (io_run md es1 io0) = io_tty (io_run Unbuffered es1 io0) /\
  exists pre, io_tty (io_run md es1 io0) = pre ++ tag Out (String.list_ascii_of_string PROMPT).
Proof.
  intros He. destruct (run_io_sync md n pid cwd fs stdin next es1 es2 Rd He (or_introl eq_refl))
    as [Hb Ht].
  split_and!; [done|done|].
  destruct (run_io n pid cwd fs stdin next) as [_ Hp]. rewrite He in Hp.
  destruct (prompted_read PROMPT _ es1 es2 Hp eq_refl) as [es0 ->].
  exists (io_tty (io_run Unbuffered es0 io0)). rewrite Ht, io_run_app.
  pose proof (io_run_unbuffered_buf es0 io0 eq_refl) as Hu.
  destruct (io_run Unbuffered es0 io0) as [b t]. simpl in Hu |- *. subst b.
  by rewrite app_nil_r.
Qed.

Lemma run_prompt_visible_witness :
  s_io (session_of (@run env_demo 1 (init 1234 "/tmp" Launcher.demo_fs "status
" 1235))) = [Wr PROMPT; Fl] ++ Rd :: [Wr (status_msg 0)] /\
  io_buf (io_run (FullyBuffered 4096) [Wr PROMPT; Fl] io0) = [] /\
  io_tty (io_run (FullyBuffered 4096) [Wr PROMPT; Fl] io0) =
    io_tty (io_run Unbuffered [Wr PROMPT; Fl] io0) /\
  exists pre, io_tty (io_run (FullyBuffered 4096) [Wr PROMPT; Fl] io0) =
    pre ++ tag Out (String.list_ascii_of_string PROMPT).
Proof.
  assert (He : s_io (session_of (@run env_demo 1 (init 1234 "/tmp" Launcher.demo_fs "status
" 1235))) = [Wr PROMPT; Fl] ++ Rd :: [Wr (status_msg 0)]) by (vm_compute; reflexivity).
  split; [exact He|].
  exact (@run_prompt_visible env_demo (FullyBuffered 4096) 1 1234 "/tmp" Launcher.demo_fs "status
" 1235 _ _ He).
Defined.

(** C28: Standard output is flushed before every [fork] and before every
    write to standard error: whatever the environment and the buffering
    mode, at each of these calls the buffer of standard output is empty
    and the terminal shows what it would show unbuffered.  So the child,
    which inherits a copy of the buffer, never writes the shell's output a
    second time when it exits (nor loses it when it execs), and the
    diagnostics on standard error never overtake what the shell printed
    before them. *)
Theorem run_fork_flushed `{Env} (md : mode) (n : nat) (pid : Z) (cwd : string) (fs : fsys)
    (stdin : string) (next : Z) (es1 es2 : list ev) (e : ev) :
  s_io (session_of (run n (init pid cwd fs stdin next))) = es1 ++ e :: es2 ->
  e = Fk \/ (exists m, e = Er m) ->
  io_buf (io_run md es1 io0) = [] /\
  io_tty (io_run md es1 io0) = io_tty (io_run Unbuffered es1 io0).
Proof. intros He Hk. apply (run_io_sync md n pid cwd fs stdin next es1 es2 e He). by right. Qed.

Lemma run_fork_flushed_witness :
  let es1 := [Wr PROMPT; Fl; Rd; Fl] in
  (s_io (session_of (@run env_demo 2 (init 1234 "/tmp" Launcher.demo_fs "cat < missing
exit
" 1235))) = es1 ++ Fk :: [Er (perror MSG_IN_OPEN ENOENT); Wr PROMPT; Fl; Rd; Fl] /\
   (Fk = Fk \/ exists m, Fk = Er m)) /\
  io_buf (io_run LineBuffered es1 io0) = [] /\
  io_tty (io_run LineBuffered es1 io0) = io_tty (io_run Unbuffered es1 io0).
Proof.
  intros es1.
  assert (He : s_io (session_of (@run env_demo 2 (init 1234 "/tmp" Launcher.demo_fs "cat < missing
exit
" 1235))) = es1 ++ Fk :: [Er (perror MSG_IN_OPEN ENOENT); Wr PROMPT; Fl; Rd; Fl])
    by (vm_compute; reflexivity).
  split; [split; [exact He|by left]|].
  exact (@run_fork_flushed env_demo LineBuffered 2 1234 "/tmp" Launcher.demo_fs "cat < missing
exit
" 1235 _ _ Fk He (or_introl eq_refl)).
Defined.

End Shell.
